(** * Coin Maker server: the sale-confirmation engine of [server.js]

    A shallow embedding of the request handlers of [server.js] and the
    properties of the token marketplace they implement.

    - JavaScript numbers are IEEE 754 binary64 values: they are Rocq's
      primitive [float]s, whose operations are the ones the JavaScript
      engine performs.
    - JSON data (request bodies, the replies of the chain explorer) is a
      tree of [JsVal]; truthiness, [||], [&&], property access and the
      conversions [Number(..)] and [String(..)] follow ECMAScript.
    - A request body is the list of the fields of [req.body], which
      [bodyParser.json()] always leaves an object.
    - The Firestore collections are finite maps from document ids to
      records; the documents keep the fields the handlers write.
    - A handler is a function from the store and the request to the new
      store and the HTTP response; everything the handler reads from the
      outside world (the clock, [uid()], the two explorer queries) is a
      field of [Env]. One request is one step: the clock is read once, and
      the store calls of a handler are not interleaved with those of
      another request. *)

From Stdlib Require Import ZArith List Bool Ascii String Floats Lia.
From stdpp Require Import gmap strings.

Set Warnings "-inexact-float,-register-all".
Set Default Proof Using "Type".

Local Open Scope Z_scope.

(** ** JavaScript values *)

Inductive JsVal :=
| JUndefined
| JNull
| JBool (b : bool)
| JNum (n : float)
| JStr (s : string)
| JArr (items : list JsVal)
| JObj (fields : list (string * JsVal)).

(** The two conversions between strings and numbers are the engine's
    ([StringToNumber] and [Number::toString] of ECMAScript); the program
    only calls them, so they are an interface of the host. The default
    receiving wallet comes from the process environment. *)
Class JsHost := {
  StringToNumber : string -> float;
  NumberToString : float -> string;
  OWNER_TON_WALLET : string
}.

Module Js.

(** [!!v] *)
Definition truthy (v : JsVal) : bool :=
  match v with
  | JUndefined | JNull => false
  | JBool b => b
  | JNum n => negb (PrimFloat.is_nan n || PrimFloat.is_zero n)
  | JStr s => negb (String.eqb s "")
  | JArr _ | JObj _ => true
  end.

(** [a || b] and [a && b] *)
Definition or (a b : JsVal) : JsVal := if truthy a then a else b.
Definition and (a b : JsVal) : JsVal := if truthy a then b else a.

Definition nullish (v : JsVal) : bool :=
  match v with JUndefined | JNull => true | _ => false end.

Fixpoint lookup_field (k : string) (fs : list (string * JsVal)) : JsVal :=
  match fs with
  | [] => JUndefined
  | (k', v) :: rest => if String.eqb k k' then v else lookup_field k rest
  end.

(** [v.k] for a [v] that is neither [null] nor [undefined]; none of the
    property names the program reads exists on a primitive or an array. *)
Definition prop (v : JsVal) (k : string) : JsVal :=
  match v with
  | JObj fs => lookup_field k fs
  | _ => JUndefined
  end.

Section Conversions.
Context `{JsHost}.

Definition join_comma (a b : string) : string :=
  String.append a (String.append "," b).

(** [String(v)] *)
Fixpoint ToString (v : JsVal) : string :=
  match v with
  | JUndefined => "undefined"
  | JNull => "null"
  | JBool true => "true"
  | JBool false => "false"
  | JNum n => NumberToString n
  | JStr s => s
  | JArr items =>
      let elem (x : JsVal) : string :=
        if nullish x then EmptyString else ToString x in
      match items with
      | [] => EmptyString
      | x :: rest =>
          fold_left (fun acc y => join_comma acc (elem y)) rest (elem x)
      end
  | JObj _ => "[object Object]"
  end.

(** [Number(v)] *)
Definition ToNumber (v : JsVal) : float :=
  match v with
  | JUndefined => PrimFloat.nan
  | JNull => 0%float
  | JBool true => 1%float
  | JBool false => 0%float
  | JNum n => n
  | JStr s => StringToNumber s
  | JArr _ | JObj _ => StringToNumber (ToString v)
  end.
End Conversions.

(** [Math.max(x, y)] *)
Definition max (x y : float) : float :=
  if PrimFloat.is_nan x || PrimFloat.is_nan y then PrimFloat.nan
  else if PrimFloat.ltb x y then y
  else if PrimFloat.ltb y x then x
  else if PrimFloat.get_sign x then y else x.

(** [n || d] on numbers *)
Definition num_or (n d : float) : float :=
  if PrimFloat.is_nan n || PrimFloat.is_zero n then d else n.

(** An optional numeric field of a document, read as [doc.f || d]. *)
Definition field_or (f : option float) (d : float) : float :=
  match f with
  | Some n => num_or n d
  | None => d
  end.

End Js.

(** ** Numeric helpers of the engine *)

Module Num.

Definition pow10_9 : Z := 1000000000.

(** The float nearest to the integer [z] (exact below 2^53). *)
Definition of_Z (z : Z) : float :=
  SF2Prim (binary_normalize prec emax z 0 false).

(** [Math.floor(x)] *)
Definition floor (x : float) : float :=
  match Prim2SF x with
  | S754_finite s m e =>
      if 0 <=? e then x
      else
        let q := Z.shiftr (if s then Z.neg m else Z.pos m) (- e) in
        if q =? 0 then (if s then PrimFloat.neg_zero else PrimFloat.zero)
        else of_Z q
  | _ => x
  end.

(** [Number(x.toFixed(9))].  [toFixed] prints the integer [n] for which
    [n / 10^9] is nearest to [|x|] (the larger one on a tie) with the
    sign of [x]; at or above 1e21 it prints [x] as [String(x)] does.
    [Number] reads the decimal back as the nearest float. *)
Definition toFixed9 (x : float) : float :=
  if PrimFloat.leb 1e21 (PrimFloat.abs x) then x
  else
    match Prim2SF x with
    | S754_finite s m e =>
        let n :=
          if 0 <=? e then Z.pos m * 2 ^ e * pow10_9
          else (2 * Z.pos m * pow10_9 + 2 ^ (- e)) / 2 ^ (- e + 1) in
        match n with
        | Z.pos p =>
            SF2Prim (SFdiv prec emax (S754_finite s p 0)
                                     (S754_finite false 1000000000 0))
        | _ => if s then PrimFloat.neg_zero else PrimFloat.zero
        end
    | S754_zero _ => PrimFloat.zero
    | _ => x
    end.

End Num.

(** ** Binary64 numbers as integers

    Every finite binary64 number is an integer multiple of 2^-1074, so
    the order of the floats and the rounding of their differences can be
    stated over [Z]. *)

Module SF.

(** A bound above every finite value, standing for infinity. *)
Definition top : Z := 2 ^ 2100.

(** The value of a binary64 number in units of 2^-1074, the smallest
    positive one; the infinities sit at [top] and [- top]. *)
Definition Zv (x : spec_float) : Z :=
  match x with
  | S754_finite s m e => (if s then -1 else 1) * Z.pos m * 2 ^ (e + 1074)
  | S754_infinity s => if s then - top else top
  | _ => 0
  end.

Definition fin (x : spec_float) : bool :=
  match x with
  | S754_finite _ _ _ | S754_zero _ => true
  | _ => false
  end.

Definition not_nan (x : spec_float) : bool :=
  match x with
  | S754_nan => false
  | _ => true
  end.

End SF.

(** A shifted mantissa has lost a non-zero bit. *)
Definition inexact (a : shr_record) : bool := shr_r a || shr_s a.

(** [b] is [a] shifted right by [k] bits: the mantissa is divided by
    [2^k], and [b] carries a round or sticky bit only if [a] did or a
    non-zero bit was shifted out. *)
Definition shifted (k : Z) (a b : shr_record) : Prop :=
  0 <= shr_m b
  /\ shr_m b = shr_m a / 2 ^ k
  /\ (inexact b = true -> shr_m a mod 2 ^ k <> 0 \/ inexact a = true).

(** [r] is a rounding of the positive value [V] (in units of 2^-1074):
    [V] lies between two neighbouring multiples [m'] and [m' + 1] of the
    unit [2^e'] of the format at that magnitude, and [r] is one of the
    two, the upper one only when [V] is not the lower one. *)
Definition rounds_to (V : Z) (r : spec_float) : Prop :=
  exists m' m'' e' : Z,
    -1074 <= e' /\ 0 < m' < 2 ^ 53 /\ (e' = -1074 \/ 2 ^ 52 <= m')
    /\ m' * 2 ^ (e' + 1074) <= V < (m' + 1) * 2 ^ (e' + 1074)
    /\ (m'' = m' \/ (m'' = m' + 1 /\ m' * 2 ^ (e' + 1074) < V))
    /\ ((r = S754_infinity false
         /\ 2 ^ 53 * 2 ^ (971 + 1074) <= m'' * 2 ^ (e' + 1074))
        \/ exists (mr : positive) (er : Z),
            r = S754_finite false mr er
            /\ Z.pos mr * 2 ^ (er + 1074) = m'' * 2 ^ (e' + 1074)).

(** The exact difference of two finite numbers, and what [SFsub] makes of
    it: zero, or a rounding of it (of its opposite when negative). *)
Definition sub_rounds (V : Z) (r : spec_float) : Prop :=
  match V ?= 0 with
  | Eq => exists s : bool, r = S754_zero s
  | Gt => rounds_to V r
  | Lt => rounds_to (- V) (SFopp r)
  end.

Module Fl.

(** The value of a float in units of 2^-1074. *)
Definition R (x : float) : Z := SF.Zv (Prim2SF x).

(** The float is a number (not NaN). *)
Definition num (x : float) : bool := SF.not_nan (Prim2SF x).

(** The float is a finite number. *)
Definition finite (x : float) : bool := SF.fin (Prim2SF x).

End Fl.

(** ** [parseTonValue] and [normalizeAddr] (lines 42-50) *)

Section Helpers.
Context `{JsHost}.

Definition parseTonValue (v : JsVal) : float :=
  if Js.nullish v then 0%float
  else
    let n := Js.ToNumber v in
    if PrimFloat.is_nan n then 0%float
    else if PrimFloat.ltb 1e12 n then PrimFloat.div n 1e9
    else n.

Definition is_alnum (c : ascii) : bool :=
  let n := N_of_ascii c in
  ((48 <=? n) && (n <=? 57) || (65 <=? n) && (n <=? 90)
   || (97 <=? n) && (n <=? 122))%N.

Definition lower (c : ascii) : ascii :=
  let n := N_of_ascii c in
  if ((65 <=? n) && (n <=? 90))%N then ascii_of_N (n + 32) else c.

Fixpoint strip_lower (s : string) : string :=
  match s with
  | EmptyString => EmptyString
  | String c rest =>
      if is_alnum c then String (lower c) (strip_lower rest)
      else strip_lower rest
  end.

Definition normalizeAddr (a : JsVal) : string :=
  strip_lower (Js.ToString (Js.or a (JStr ""))).
End Helpers.

(** ** Documents of the four Firestore collections *)

Inductive SaleStatus := pending | pending_check | confirmed.

Module Token.
Record t := {
  type : JsVal;
  name : JsVal;
  ticker : JsVal;
  owner : JsVal;
  createdAt : float;
  totalSupply : option float;
  remainingSupply : option float;
  pricePerToken : option float;
  dynamicPrice : option float;
  supplyIssued : option float
}.

(** [tokenRef.update({ remainingSupply })] *)
Definition update_listing (tok : t) (newRem : float) : t :=
  {| type := type tok; name := name tok; ticker := ticker tok;
     owner := owner tok; createdAt := createdAt tok;
     totalSupply := totalSupply tok; remainingSupply := Some newRem;
     pricePerToken := pricePerToken tok; dynamicPrice := dynamicPrice tok;
     supplyIssued := supplyIssued tok |}.

(** [tokenRef.update({ supplyIssued, dynamicPrice })] *)
Definition update_user (tok : t) (issued newPrice : float) : t :=
  {| type := type tok; name := name tok; ticker := ticker tok;
     owner := owner tok; createdAt := createdAt tok;
     totalSupply := totalSupply tok; remainingSupply := remainingSupply tok;
     pricePerToken := pricePerToken tok; dynamicPrice := Some newPrice;
     supplyIssued := Some issued |}.
End Token.

Module Sale.
Record t := {
  id : string;
  tokenId : string;
  tokenTicker : JsVal;
  buyer : JsVal;
  seller : JsVal;
  amountTokens : float;
  cost : float;
  status : SaleStatus;
  createdAt : float;
  txHash : option JsVal;
  confirmedAt : option float
}.

(** [update({ status: 'pending_check' })] *)
Definition update_status (st : SaleStatus) (s : t) : t :=
  {| id := id s; tokenId := tokenId s; tokenTicker := tokenTicker s;
     buyer := buyer s; seller := seller s; amountTokens := amountTokens s;
     cost := cost s; status := st; createdAt := createdAt s;
     txHash := txHash s; confirmedAt := confirmedAt s |}.

(** [update({ status: 'confirmed', txHash, confirmedAt })] *)
Definition update_confirmed (hash : JsVal) (at_ : float) (s : t) : t :=
  {| id := id s; tokenId := tokenId s; tokenTicker := tokenTicker s;
     buyer := buyer s; seller := seller s; amountTokens := amountTokens s;
     cost := cost s; status := confirmed; createdAt := createdAt s;
     txHash := Some hash; confirmedAt := Some at_ |}.
End Sale.

Module Balance.
Record t := { tokenId : JsVal; address : JsVal; amount : float }.
End Balance.

Inductive HistoryEntry :=
| HSaleCreated (when : float) (saleId : string) (sale : Sale.t)
| HBuyConfirmed (when : float) (saleId tokenId : string)
    (buyer seller : JsVal) (amount cost : float)
| HTransfer (when : float) (tokenId from to : JsVal) (amount : float).

Record Store := {
  tokens : gmap string Token.t;
  sales : gmap string Sale.t;
  balances : gmap string Balance.t;
  history : gmap string HistoryEntry
}.

Definition with_tokens (st : Store) (m : gmap string Token.t) : Store :=
  {| tokens := m; sales := sales st; balances := balances st;
     history := history st |}.
Definition with_sales (st : Store) (m : gmap string Sale.t) : Store :=
  {| tokens := tokens st; sales := m; balances := balances st;
     history := history st |}.
Definition with_balances (st : Store) (m : gmap string Balance.t) : Store :=
  {| tokens := tokens st; sales := sales st; balances := m;
     history := history st |}.
Definition with_history (st : Store) (m : gmap string HistoryEntry) : Store :=
  {| tokens := tokens st; sales := sales st; balances := balances st;
     history := m |}.

(** ** The outside world of one request

    [date_now] is [Date.now()], [uid k] the result of the [k]-th call of
    [uid()] in the request. The two queries of the chain explorer return
    the [data] of the HTTP reply, or [None] when the request fails or times
    out (axios rejects). *)
Record Env := {
  date_now : float;
  uid : nat -> string;
  getTransaction : JsVal -> option JsVal;
  getTransactions : JsVal -> option JsVal
}.

Record Response := { status : nat; body : JsVal }.

Definition json (b : JsVal) : Response := {| status := 200; body := b |}.
Definition json_status (code : nat) (b : JsVal) : Response :=
  {| status := code; body := b |}.
Definition error_body (code : string) : JsVal := JObj [("error", JStr code)].
Definition server_error : Response := json_status 500 (error_body "server_error").

(** [.catch(() => ({ data: null }))] *)
Definition data_or_null (r : option JsVal) : JsVal :=
  match r with Some d => d | None => JNull end.

(** [`${a}__${b}`] *)
Definition doc_key (a b : string) : string :=
  String.append a (String.append "__" b).

(** ** The request handlers *)

Section Handlers.
Context `{JsHost}.

Definition is_listing (type : JsVal) : bool :=
  match type with JStr s => String.eqb s "listing" | _ => false end.

(** *** POST /api/tokens/create (lines 74-95) *)

Definition create_token (env : Env) (body : list (string * JsVal))
    : option Token.t :=
  let field k := Js.lookup_field k body in
  let base totalSupply remainingSupply pricePerToken dynamicPrice issued :=
    {| Token.type := field "type"; Token.name := field "name";
       Token.ticker := field "ticker";
       Token.owner := Js.or (field "owner") (JStr OWNER_TON_WALLET);
       Token.createdAt := date_now env;
       Token.totalSupply := totalSupply;
       Token.remainingSupply := remainingSupply;
       Token.pricePerToken := pricePerToken;
       Token.dynamicPrice := dynamicPrice;
       Token.supplyIssued := issued |} in
  if is_listing (field "type") then
    if negb (Js.truthy (field "totalSupply"))
       || negb (Js.truthy (field "pricePerToken"))
    then None
    else Some (base (Some (Js.ToNumber (field "totalSupply")))
                    (Some (Js.ToNumber (field "totalSupply")))
                    (Some (Js.ToNumber (field "pricePerToken")))
                    None None)
  else
    Some (base None None None
            (Some (Js.ToNumber (Js.or (field "dynamicPrice") (JNum 0.1))))
            (Some 0%float)).

Definition token_json (id : string) (tok : Token.t) : JsVal :=
  let num (k : string) (f : option float) :=
    match f with Some n => [(k, JNum n)] | None => [] end in
  JObj ([("ok", JBool true); ("id", JStr id);
         ("token",
          JObj ([("type", Token.type tok); ("name", Token.name tok);
                 ("ticker", Token.ticker tok); ("owner", Token.owner tok);
                 ("createdAt", JNum (Token.createdAt tok))]
                ++ num "totalSupply" (Token.totalSupply tok)
                ++ num "remainingSupply" (Token.remainingSupply tok)
                ++ num "pricePerToken" (Token.pricePerToken tok)
                ++ num "dynamicPrice" (Token.dynamicPrice tok)
                ++ num "supplyIssued" (Token.supplyIssued tok)))]).

Definition create (env : Env) (st : Store) (body : list (string * JsVal))
    : Store * Response :=
  let field k := Js.lookup_field k body in
  if negb (Js.truthy (field "type")) || negb (Js.truthy (field "name"))
     || negb (Js.truthy (field "ticker"))
  then (st, json_status 400 (error_body "missing"))
  else
    let id := uid env 0 in
    match create_token env body with
    | None => (st, json_status 400 (error_body "listing_missing"))
    | Some token =>
        (with_tokens st (<[id := token]> (tokens st)),
         json (token_json id token))
    end.

(** *** POST /api/tokens/:id/buy (lines 102-137) *)

Definition buy (env : Env) (st : Store) (tokenId : string)
    (body : list (string * JsVal)) : Store * Response :=
  let buyer := Js.lookup_field "buyer" body in
  let amountTokens := Js.lookup_field "amountTokens" body in
  if negb (Js.truthy buyer) || negb (Js.truthy amountTokens)
  then (st, json_status 400 (error_body "missing"))
  else
    match tokens st !! tokenId with
    | None => (st, json_status 404 (error_body "token_not_found"))
    | Some token =>
        let amount := Js.ToNumber amountTokens in
        if PrimFloat.leb amount 0 then
          (st, json_status 400 (error_body "bad_amount"))
        else
          let receiver := Js.or (Token.owner token) (JStr OWNER_TON_WALLET) in
          let quote : option float :=
            if is_listing (Token.type token) then
              if PrimFloat.ltb (Js.field_or (Token.remainingSupply token) 0)
                               amount
              then None
              else Some (Num.toFixed9
                           (PrimFloat.mul amount
                              (match Token.pricePerToken token with
                               | Some p => p
                               | None => PrimFloat.nan
                               end)))
            else Some (Num.toFixed9
                         (PrimFloat.mul amount
                            (Js.field_or (Token.dynamicPrice token) 0.1))) in
          match quote with
          | None => (st, json_status 400 (error_body "not_enough_supply"))
          | Some cost =>
              let saleId := uid env 0 in
              let sale :=
                {| Sale.id := saleId; Sale.tokenId := tokenId;
                   Sale.tokenTicker := Js.or (Token.ticker token) (JStr "");
                   Sale.buyer := buyer; Sale.seller := receiver;
                   Sale.amountTokens := amount; Sale.cost := cost;
                   Sale.status := pending;
                   Sale.createdAt := date_now env;
                   Sale.txHash := None; Sale.confirmedAt := None |} in
              let st1 := with_sales st (<[saleId := sale]> (sales st)) in
              let st2 :=
                with_history st1
                  (<[uid env 1 := HSaleCreated (date_now env) saleId sale]>
                     (history st1)) in
              (st2, json (JObj [("ok", JBool true); ("saleId", JStr saleId);
                                ("cost", JNum cost);
                                ("receiver", receiver)]))
          end
    end.

(** *** POST /api/sales/:saleId/confirm (lines 145-240) *)

(** The token update of [finalize] (lines 160-171). *)
Definition finalize_token (token : Token.t) (amountTokens : float)
    : Token.t :=
  if is_listing (Token.type token) then
    let newRem :=
      Js.max 0 (PrimFloat.sub (Js.field_or (Token.remainingSupply token) 0)
                              amountTokens) in
    Token.update_listing token newRem
  else
    let issued :=
      PrimFloat.add (Js.field_or (Token.supplyIssued token) 0)
                    amountTokens in
    let oldPrice := Js.field_or (Token.dynamicPrice token) 0.1 in
    let alpha := 0.005%float in
    let factor := PrimFloat.add 1 (PrimFloat.mul alpha amountTokens) in
    let newPrice := Num.toFixed9 (PrimFloat.mul oldPrice factor) in
    Token.update_user token issued newPrice.

Definition balance_key (tokenId buyer : JsVal) : string :=
  doc_key (Js.ToString tokenId) (Js.ToString buyer).

(** The stored amount of a balance document, [0] when there is none. *)
Definition balance_of (m : gmap string Balance.t) (key : string) : float :=
  match m !! key with
  | Some b => Js.num_or (Balance.amount b) 0
  | None => 0%float
  end.

Definition sale_confirmed_body : JsVal :=
  JObj [("ok", JBool true); ("message", JStr "sale_confirmed")].

(** [finalize(foundHash)] (lines 154-181) *)
Definition finalize (env : Env) (st : Store) (saleId : string)
    (sale : Sale.t) (foundHash : JsVal) : Store * JsVal :=
  let st1 :=
    with_sales st
      (alter (Sale.update_confirmed (Js.or foundHash JNull) (date_now env))
             saleId (sales st)) in
  let st2 :=
    match tokens st1 !! Sale.tokenId sale with
    | Some token =>
        with_tokens st1
          (<[Sale.tokenId sale :=
               finalize_token token (Sale.amountTokens sale)]> (tokens st1))
    | None => st1
    end in
  let key := balance_key (JStr (Sale.tokenId sale)) (Sale.buyer sale) in
  let prev := balance_of (balances st2) key in
  let st3 :=
    with_balances st2
      (<[key := {| Balance.tokenId := JStr (Sale.tokenId sale);
                   Balance.address := Sale.buyer sale;
                   Balance.amount :=
                     PrimFloat.add prev (Sale.amountTokens sale) |}]>
         (balances st2)) in
  let st4 :=
    with_history st3
      (<[uid env 0 :=
           HBuyConfirmed (date_now env) saleId (Sale.tokenId sale)
             (Sale.buyer sale) (Sale.seller sale) (Sale.amountTokens sale)
             (Sale.cost sale)]> (history st3)) in
  (st4, sale_confirmed_body).

(** [tx.in_msg || tx.in_message || null] *)
Definition in_msg_of (tx : JsVal) : JsVal :=
  Js.or (Js.or (Js.prop tx "in_msg") (Js.prop tx "in_message")) JNull.

(** The incoming value [val] of a transaction (lines 191-194, and again
    219-221). *)
Definition tx_value (tx : JsVal) : float :=
  let in_msg := in_msg_of tx in
  if Js.truthy (Js.and in_msg (Js.prop in_msg "value")) then
    parseTonValue (Js.prop in_msg "value")
  else if Js.truthy (Js.prop tx "value") then
    parseTonValue (Js.prop tx "value")
  else 0%float.

(** [val >= (Number(sale.cost) - 0.0000001)] *)
Definition amount_ok (cost val : float) : bool :=
  PrimFloat.leb (PrimFloat.sub cost 0.0000001) val.

(** The sender read by the direct-hash path (lines 192, 195). *)
Definition direct_sender (tx : JsVal) : JsVal :=
  let in_msg := in_msg_of tx in
  let source :=
    Js.or (Js.prop in_msg "source") (Js.prop in_msg "source_address") in
  if Js.truthy (Js.and in_msg source) then source else JNull.

(** [okSender] (line 197) *)
Definition sender_ok (sender buyer : JsVal) : bool :=
  if Js.truthy sender
  then String.eqb (normalizeAddr sender) (normalizeAddr buyer)
  else true.

Definition tx_mismatch_body (val : float) (sender : JsVal) : JsVal :=
  JObj [("ok", JBool false); ("reason", JStr "tx_mismatch");
        ("foundAmount", JNum val); ("sender", sender)].

(** The transaction found by hash (lines 186-189): the [result] of the
    explorer's reply when [r.data && r.data.ok && r.data.result] holds. *)
Definition lookup_tx (env : Env) (txHash : JsVal) : option JsVal :=
  let data := data_or_null (getTransaction env txHash) in
  if Js.truthy (Js.and (Js.and data (Js.prop data "ok"))
                       (Js.prop data "result"))
  then Some (Js.prop data "result")
  else None.

(** The direct-hash path (lines 184-202): [Some] is the response it
    returns, [None] means that control falls through to the scan. *)
Definition direct_path (env : Env) (st : Store) (saleId : string)
    (sale : Sale.t) (txHash : JsVal) : option (Store * Response) :=
  if Js.truthy txHash then
    match lookup_tx env txHash with
    | Some tx =>
        let val := tx_value tx in
        let sender := direct_sender tx in
        let okAmount := amount_ok (Sale.cost sale) val in
        let okSender := sender_ok sender (Sale.buyer sale) in
        if okAmount && okSender then
          let '(st', result) := finalize env st saleId sale txHash in
          Some (st', json result)
        else Some (st, json_status 400 (tx_mismatch_body val sender))
    | None => None
    end
  else None.

(** [Math.floor(Date.now()/1000)] *)
Definition now_seconds (env : Env) : float :=
  Num.floor (PrimFloat.div (date_now env) 1000).

(** [tx.utime || tx.time || 0] *)
Definition utime_of (tx : JsVal) : JsVal :=
  Js.or (Js.or (Js.prop tx "utime") (Js.prop tx "time")) (JNum 0).

(** [utime && (now - utime > 60*60*24)] (line 217) *)
Definition older_than_24h (now : float) (tx : JsVal) : bool :=
  let utime := utime_of tx in
  Js.truthy utime
  && PrimFloat.ltb 86400 (PrimFloat.sub now (Js.ToNumber utime)).

(** The sender read by the scan (line 224). *)
Definition scan_sender (tx : JsVal) : JsVal :=
  let in_msg := in_msg_of tx in
  Js.or (Js.or (Js.and in_msg
                  (Js.or (Js.prop in_msg "source")
                         (Js.prop in_msg "source_address")))
               (Js.prop tx "source"))
        JNull.

(** The loop of lines 213-229: [Some matched] when it ends ([matched] is
    [null] when nothing was selected), [None] when reading a property of
    a [null] element throws. *)
Fixpoint scan_loop (now cost : float) (buyer : JsVal) (txs : list JsVal)
    : option JsVal :=
  match txs with
  | [] => Some JNull
  | tx :: rest =>
      if Js.nullish tx then None
      else if older_than_24h now tx then scan_loop now cost buyer rest
      else if amount_ok cost (tx_value tx) then
        let sender := scan_sender tx in
        if negb (Js.truthy sender)
           || String.eqb (normalizeAddr sender) (normalizeAddr buyer)
        then Some tx
        else Some tx
      else scan_loop now cost buyer rest
  end.

Fixpoint chars (s : string) : list JsVal :=
  match s with
  | EmptyString => []
  | String c rest => JStr (String c EmptyString) :: chars rest
  end.

(** What [for (const tx of txs)] iterates over: the elements of an array,
    the characters of a string (one-character strings, which have none of
    the properties the loop reads); [None] when [txs] is not iterable and
    the loop throws. *)
Definition iterate (txs : JsVal) : option (list JsVal) :=
  match txs with
  | JArr items => Some items
  | JStr s => Some (chars s)
  | _ => None
  end.

Definition mark_pending_check (st : Store) (saleId : string) : Store :=
  with_sales st (alter (Sale.update_status pending_check) saleId (sales st)).

Definition not_ok_body (reason : string) : JsVal :=
  JObj [("ok", JBool false); ("reason", JStr reason)].

(** [matched.id || matched.hash || (matched.in_msg && matched.in_msg.hash)
    || null] *)
Definition found_hash (matched : JsVal) : JsVal :=
  Js.or (Js.or (Js.or (Js.prop matched "id") (Js.prop matched "hash"))
               (Js.and (Js.prop matched "in_msg")
                       (Js.prop (Js.prop matched "in_msg") "hash")))
        JNull.

(** [!rTx.data || !rTx.data.ok] (line 207) *)
Definition txs_unavailable (data : JsVal) : bool :=
  negb (Js.truthy data) || negb (Js.truthy (Js.prop data "ok")).

(** The scan of the seller's recent transactions (lines 204-235). *)
Definition scan_path (env : Env) (st : Store) (saleId : string)
    (sale : Sale.t) : Store * Response :=
  let data := data_or_null (getTransactions env (Sale.seller sale)) in
  if txs_unavailable data then
    (mark_pending_check st saleId, json (not_ok_body "txs_unavailable"))
  else
    let txs := Js.or (Js.prop data "result") (JArr []) in
    match iterate txs with
    | None => (st, server_error)
    | Some items =>
        match scan_loop (now_seconds env) (Sale.cost sale)
                        (Sale.buyer sale) items with
        | None => (st, server_error)
        | Some matched =>
            if negb (Js.truthy matched) then
              (mark_pending_check st saleId, json (not_ok_body "not_found"))
            else
              let '(st', result) :=
                finalize env st saleId sale (found_hash matched) in
              (st', json result)
        end
    end.

Definition already_confirmed_body : JsVal :=
  JObj [("ok", JBool true); ("message", JStr "already_confirmed")].

Definition confirm (env : Env) (st : Store) (saleId : string)
    (body : list (string * JsVal)) : Store * Response :=
  let txHash := Js.lookup_field "txHash" body in
  match sales st !! saleId with
  | None => (st, json_status 404 (error_body "sale_not_found"))
  | Some sale =>
      match Sale.status sale with
      | confirmed => (st, json already_confirmed_body)
      | _ =>
          match direct_path env st saleId sale txHash with
          | Some r => r
          | None => scan_path env st saleId sale
          end
      end
  end.

(** *** POST /api/transfer (lines 247-268) *)

Definition transfer (env : Env) (st : Store)
    (body : list (string * JsVal)) : Store * Response :=
  let tokenId := Js.lookup_field "tokenId" body in
  let from := Js.lookup_field "from" body in
  let to := Js.lookup_field "to" body in
  let amount := Js.lookup_field "amount" body in
  if negb (Js.truthy tokenId) || negb (Js.truthy from)
     || negb (Js.truthy to) || negb (Js.truthy amount)
  then (st, json_status 400 (error_body "missing"))
  else
    let amt := Js.ToNumber amount in
    if PrimFloat.leb amt 0 then (st, json_status 400 (error_body "bad_amount"))
    else
      let fromKey := balance_key tokenId from in
      let toKey := balance_key tokenId to in
      let have := balance_of (balances st) fromKey in
      if PrimFloat.ltb have amt then
        (st, json_status 400 (error_body "insufficient"))
      else
        let b1 :=
          <[fromKey := {| Balance.tokenId := tokenId; Balance.address := from;
                          Balance.amount := PrimFloat.sub have amt |}]>
            (balances st) in
        let prev := balance_of b1 toKey in
        let b2 :=
          <[toKey := {| Balance.tokenId := tokenId; Balance.address := to;
                        Balance.amount := PrimFloat.add prev amt |}]> b1 in
        let st' := with_balances st b2 in
        (with_history st'
           (<[uid env 0 := HTransfer (date_now env) tokenId from to amt]>
              (history st')),
         json (JObj [("ok", JBool true)])).





(** The items of an available reply of the recent-transactions query. *)
Definition recent_txs (env : Env) (sale : Sale.t) : option (list JsVal) :=
  let data := data_or_null (getTransactions env (Sale.seller sale)) in
  if txs_unavailable data then None
  else iterate (Js.or (Js.prop data "result") (JArr [])).

(** The status of a sale document, if the document exists. *)
Definition sale_status (st : Store) (saleId : string) : option SaleStatus :=
  Sale.status <$> sales st !! saleId.

(** The token after a sequence of confirmed purchases (each one applies
    the token update of [finalize]). *)
Definition purchases (tok : Token.t) (amounts : list float) : Token.t :=
  fold_left finalize_token amounts tok.

(** No purchase of the sequence asks for more than what remains. *)
Fixpoint never_oversold (r : float) (amounts : list float) : Prop :=
  match amounts with
  | [] => True
  | a :: rest =>
      PrimFloat.leb a r = true /\ never_oversold (PrimFloat.sub r a) rest
  end.

(** An amount a confirmed purchase can carry: positive and finite. *)
Definition amount_positive (a : float) : Prop :=
  PrimFloat.ltb 0 a = true /\ PrimFloat.ltb a infinity = true.



End Handlers.

(** ** A concrete host, store and explorer for the examples *)

Module Demo.

Fixpoint digits_value (s : string) (acc : Z) : option Z :=
  match s with
  | EmptyString => Some acc
  | String c rest =>
      let n := Z.of_N (N_of_ascii c) in
      if (48 <=? n) && (n <=? 57) then digits_value rest (10 * acc + (n - 48))
      else None
  end.

Fixpoint digits_of (fuel : nat) (z : Z) (acc : string) : string :=
  match fuel with
  | O => acc
  | S fuel' =>
      let acc' := String (ascii_of_N (Z.to_N (48 + z mod 10))) acc in
      if z / 10 =? 0 then acc' else digits_of fuel' (z / 10) acc'
  end.

(** The integer a float stands for, when it is one below 2^53. *)
Definition small_integer (n : float) : option Z :=
  match Prim2SF n with
  | S754_zero _ => Some 0
  | S754_finite false m e =>
      let z := if 0 <=? e then Z.pos m * 2 ^ e else Z.pos m / 2 ^ (- e) in
      if (0 <=? e) || (Z.pos m mod 2 ^ (- e) =? 0) then
        if z <? 2 ^ 53 then Some z else None
      else None
  | _ => None
  end.

(** The engine's conversions, restricted to the unsigned decimal integers
    below 2^53 (everything else converts to NaN); the examples convert
    nothing else. *)
#[local] Instance host : JsHost := {|
  StringToNumber s :=
    match s with
    | EmptyString => 0%float
    | _ =>
        match digits_value s 0 with
        | Some z => if z <? 2 ^ 53 then Num.of_Z z else PrimFloat.nan
        | None => PrimFloat.nan
        end
    end;
  NumberToString n :=
    match small_integer n with
    | Some z => digits_of 20 z EmptyString
    | None => "NaN"
    end;
  OWNER_TON_WALLET := "UQAmTM_EE8D6seecLKf-h8aXVQasliniDDQ52EvBj7PqExNr"
|}.

(** The world of the [n]-th request: its [uid()] calls return [id_2n] and
    [id_2n+1]. *)
Definition env (n : nat) (tx_reply txs_reply : option JsVal) : Env :=
  {| date_now := 1700000000000%float;
     uid k :=
       String.append "id_" (digits_of 20 (Z.of_nat (2 * n + k)) EmptyString);
     getTransaction _ := tx_reply;
     getTransactions _ := txs_reply |}.

Definition listing : Token.t :=
  {| Token.type := JStr "listing"; Token.name := JStr "Gold";
     Token.ticker := JStr "GLD"; Token.owner := JStr "UQ-Seller_01";
     Token.createdAt := 1690000000000%float;
     Token.totalSupply := Some 10%float;
     Token.remainingSupply := Some 10%float;
     Token.pricePerToken := Some 2.5%float;
     Token.dynamicPrice := None; Token.supplyIssued := None |}.

Definition user_token (price : float) : Token.t :=
  {| Token.type := JStr "user"; Token.name := JStr "Mine";
     Token.ticker := JStr "MNE"; Token.owner := JStr "UQ-Seller_01";
     Token.createdAt := 1690000000000%float;
     Token.totalSupply := None; Token.remainingSupply := None;
     Token.pricePerToken := None;
     Token.dynamicPrice := Some price; Token.supplyIssued := Some 0%float |}.

Definition sale (id tokenId : string) (amount cost : float)
    (status : SaleStatus) : Sale.t :=
  {| Sale.id := id; Sale.tokenId := tokenId; Sale.tokenTicker := JStr "GLD";
     Sale.buyer := JStr "EQ-Buyer_01"; Sale.seller := JStr "UQ-Seller_01";
     Sale.amountTokens := amount; Sale.cost := cost; Sale.status := status;
     Sale.createdAt := 1699999000000%float;
     Sale.txHash := None; Sale.confirmedAt := None |}.

Definition store : Store :=
  {| tokens := {[ "gold" := listing ]};
     sales := {[ "s1" := sale "s1" "gold" 4 10 pending;
                 "s2" := sale "s2" "gold" 1 2.5 confirmed ]};
     balances := {[ "gold__alice" :=
                      {| Balance.tokenId := JStr "gold";
                         Balance.address := JStr "alice";
                         Balance.amount := 3%float |} ]};
     history := ∅ |}.

(** A transaction as the explorer reports it. *)
Definition tx (utime value : float) (source : JsVal) : JsVal :=
  JObj [("utime", JNum utime);
        ("in_msg", JObj [("value", JNum value); ("source", source)]);
        ("hash", JStr "abc123")].

Definition reply (result : JsVal) : option JsVal :=
  Some (JObj [("ok", JBool true); ("result", result)]).

(** A buy request of the buyer of the examples. *)
Definition buy_body (amount : float) : list (string * JsVal) :=
  [("buyer", JStr "EQ-Buyer_01"); ("amountTokens", JNum amount)].

(** Two purchases of 6 units of the listing token, quoted while 10 units
    remain, and both confirmed by a scan that finds a payment of 15. *)
Definition oversold : Store :=
  let paid := reply (JArr [tx 1699990000 15 JNull]) in
  let st1 := fst (buy (env 0 None None) store "gold" (buy_body 6)) in
  let st2 := fst (buy (env 1 None None) st1 "gold" (buy_body 6)) in
  let st3 := fst (confirm (env 2 None paid) st2 "id_0" []) in
  fst (confirm (env 3 None paid) st3 "id_2" []).

(** A request that creates a listing token. *)
Definition listing_body (totalSupply : float) : list (string * JsVal) :=
  [("type", JStr "listing"); ("name", JStr "Gold"); ("ticker", JStr "GLD");
   ("totalSupply", JNum totalSupply); ("pricePerToken", JNum 2.5)].

(** A request that creates a user token. *)
Definition user_body (price : float) : list (string * JsVal) :=
  [("type", JStr "user"); ("name", JStr "Mine"); ("ticker", JStr "MNE");
   ("dynamicPrice", JNum price)].

(** A user token created at the price 1e-10, after one confirmed purchase
    of one unit (the token is [id_0], the sale [id_2]). *)
Definition cheap : Store :=
  let paid := reply (JArr [tx 1699990000 0.1 JNull]) in
  let st1 := fst (create (env 0 None None) store (user_body 1e-10)) in
  let st2 := fst (buy (env 1 None None) st1 "id_0" (buy_body 1)) in
  fst (confirm (env 2 None paid) st2 "id_2" []).

(** The same token after a second confirmed purchase of one unit (the
    sale [id_6]). *)
Definition repriced : Store :=
  let paid := reply (JArr [tx 1699990000 0.1 JNull]) in
  let st4 := fst (buy (env 3 None None) cheap "id_0" (buy_body 1)) in
  fst (confirm (env 4 None paid) st4 "id_6" []).

End Demo.

(** ** The two queries (lines 273-298) *)

(** [where(field, '==', addr)] on a stored value: the path parameter is a
    string, and only a stored string equal to it matches. *)
Definition field_is (addr : string) (v : JsVal) : bool :=
  match v with JStr s => String.eqb s addr | _ => false end.

Fixpoint insert_by_id {A : Type} (x : string * A) (l : list (string * A))
    : list (string * A) :=
  match l with
  | [] => [x]
  | y :: rest =>
      if String.leb (fst x) (fst y) then x :: l else y :: insert_by_id x rest
  end.

(** The documents of a collection in the order of a query without
    [orderBy]: by document id. *)
Definition docs_by_id {A : Type} (m : gmap string A) : list A :=
  List.map snd (fold_right insert_by_id [] (map_to_list m)).

(** GET /api/balances/:address: the array the response carries. *)
Definition get_balances (st : Store) (addr : string) : list Balance.t :=
  List.filter (fun b => field_is addr (Balance.address b))
              (docs_by_id (balances st)).

(** The [buyer] field of a history document; a transfer entry has none. *)
Definition entry_buyer (e : HistoryEntry) : JsVal :=
  match e with
  | HSaleCreated _ _ sale => Sale.buyer sale
  | HBuyConfirmed _ _ _ buyer _ _ _ => buyer
  | HTransfer _ _ _ _ _ => JUndefined
  end.

(** GET /api/history/:address: the array the response carries. *)
Definition get_history (st : Store) (addr : string) : list HistoryEntry :=
  firstn 100 (List.filter (fun e => field_is addr (entry_buyer e))
                          (docs_by_id (history st))).

(** ** The four POST routes as one server *)

Inductive Request :=
| PostCreate (body : list (string * JsVal))
| PostBuy (tokenId : string) (body : list (string * JsVal))
| PostConfirm (saleId : string) (body : list (string * JsVal))
| PostTransfer (body : list (string * JsVal)).

Section Server.
Context `{JsHost}.

Definition handle (env : Env) (st : Store) (req : Request)
    : Store * Response :=
  match req with
  | PostCreate body => create env st body
  | PostBuy tokenId body => buy env st tokenId body
  | PostConfirm saleId body => confirm env st saleId body
  | PostTransfer body => transfer env st body
  end.

(** The store after a sequence of requests, each in its own world. *)
Definition serve (st : Store) (reqs : list (Env * Request)) : Store :=
  fold_left (fun s r => fst (handle (fst r) s (snd r))) reqs st.

(** *** Statements about stores and outcomes *)

(** Every balance document holds a number that is not negative. *)
Definition amounts_nonneg (m : gmap string Balance.t) : Prop :=
  map_Forall (fun _ b => PrimFloat.leb 0 (Balance.amount b) = true) m.

Definition balances_nonneg (st : Store) : Prop :=
  amounts_nonneg (balances st).

(** Every sale that can be paid (its cost is a number) is for an amount
    that is not negative. *)
Definition payable_nonneg (m : gmap string Sale.t) : Prop :=
  map_Forall (fun _ s => Fl.num (Sale.cost s) = true ->
                         PrimFloat.leb 0 (Sale.amountTokens s) = true) m.

Definition sales_nonneg (st : Store) : Prop := payable_nonneg (sales st).

(** The amount of a transfer request is a finite number. *)
Definition finite_transfer (req : Request) : Prop :=
  match req with
  | PostTransfer body =>
      Fl.finite (Js.ToNumber (Js.lookup_field "amount" body)) = true
  | _ => True
  end.

(** No document of [st] is missing in [st']. *)
Definition keeps_documents (st st' : Store) : Prop :=
  (forall k, is_Some (tokens st !! k) -> is_Some (tokens st' !! k))
  /\ (forall k, is_Some (sales st !! k) -> is_Some (sales st' !! k))
  /\ (forall k, is_Some (balances st !! k) -> is_Some (balances st' !! k))
  /\ (forall k, is_Some (history st !! k) -> is_Some (history st' !! k)).

(** Two versions of a sale document agree on what was sold, to whom and
    for how much. *)
Definition same_terms (s s' : Sale.t) : Prop :=
  Sale.id s' = Sale.id s /\ Sale.tokenId s' = Sale.tokenId s
  /\ Sale.tokenTicker s' = Sale.tokenTicker s
  /\ Sale.buyer s' = Sale.buyer s /\ Sale.seller s' = Sale.seller s
  /\ Sale.amountTokens s' = Sale.amountTokens s
  /\ Sale.cost s' = Sale.cost s /\ Sale.createdAt s' = Sale.createdAt s.

(** The explorer reported [tx] to this request: as the transaction of the
    hash the request names, or among the seller's recent transactions. *)
Definition reported (env : Env) (sale : Sale.t) (txHash tx : JsVal) : Prop :=
  (Js.truthy txHash = true /\ lookup_tx env txHash = Some tx)
  \/ (exists items : list JsVal, recent_txs env sale = Some items /\ In tx items).

(** The seven ways a confirmation request ends. *)
Inductive confirm_outcome (env : Env) (st : Store) (saleId : string)
    (txHash : JsVal) : Store * Response -> Prop :=
| sale_not_found :
    sales st !! saleId = None ->
    confirm_outcome env st saleId txHash
      (st, json_status 404 (error_body "sale_not_found"))
| already_confirmed (sale : Sale.t) :
    sales st !! saleId = Some sale ->
    Sale.status sale = confirmed ->
    confirm_outcome env st saleId txHash (st, json already_confirmed_body)
| tx_mismatch (sale : Sale.t) (tx : JsVal) :
    sales st !! saleId = Some sale ->
    Sale.status sale <> confirmed ->
    Js.truthy txHash = true ->
    lookup_tx env txHash = Some tx ->
    amount_ok (Sale.cost sale) (tx_value tx)
    && sender_ok (direct_sender tx) (Sale.buyer sale) = false ->
    confirm_outcome env st saleId txHash
      (st, json_status 400 (tx_mismatch_body (tx_value tx) (direct_sender tx)))
| txs_not_available (sale : Sale.t) :
    sales st !! saleId = Some sale ->
    Sale.status sale <> confirmed ->
    confirm_outcome env st saleId txHash
      (mark_pending_check st saleId, json (not_ok_body "txs_unavailable"))
| payment_not_found (sale : Sale.t) :
    sales st !! saleId = Some sale ->
    Sale.status sale <> confirmed ->
    confirm_outcome env st saleId txHash
      (mark_pending_check st saleId, json (not_ok_body "not_found"))
| scan_throws (sale : Sale.t) :
    sales st !! saleId = Some sale ->
    Sale.status sale <> confirmed ->
    confirm_outcome env st saleId txHash (st, server_error)
| sale_confirmed (sale : Sale.t) (tx hash : JsVal) :
    sales st !! saleId = Some sale ->
    Sale.status sale <> confirmed ->
    reported env sale txHash tx ->
    amount_ok (Sale.cost sale) (tx_value tx) = true ->
    confirm_outcome env st saleId txHash
      (fst (finalize env st saleId sale hash), json sale_confirmed_body).

End Server.


Fixpoint all_chars (p : ascii -> bool) (s : string) : bool :=
  match s with
  | EmptyString => true
  | String c rest => p c && all_chars p rest
  end.

(** ** Further requests for the examples *)

Module Cases.
#[local] Existing Instance Demo.host.

(** The pending sale of the example store. *)
Definition s1 : Sale.t := Demo.sale "s1" "gold" 4 10 pending.

(** A reply of the recent-transactions query with one payment of 15. *)
Definition paid : option JsVal :=
  Demo.reply (JArr [Demo.tx 1699990000 15 JNull]).

(** A transfer of the example token from [alice] to [bob]. *)
Definition transfer_body (amount : JsVal) : list (string * JsVal) :=
  [("tokenId", JStr "gold"); ("from", JStr "alice"); ("to", JStr "bob");
   ("amount", amount)].






End Cases.

(** * Properties *)

(** ** Facts about the JavaScript operators *)

Lemma is_nan_Prim2SF (x : float) :
  PrimFloat.is_nan x = true -> Prim2SF x = S754_nan.
Proof. intros Hx. unfold Prim2SF. now rewrite Hx. Qed.

Lemma ltb_nan_r (x y : float) :
  PrimFloat.is_nan y = true -> PrimFloat.ltb x y = false.
Proof.
  intros Hy. rewrite ltb_spec, (is_nan_Prim2SF y Hy).
  unfold SFltb. now destruct (Prim2SF x).
Qed.

(** ** Binary64: order, rounding and subtraction *)

Lemma digits2_bounds (m : positive) :
  2 ^ (Z.pos (digits2_pos m) - 1) <= Z.pos m < 2 ^ Z.pos (digits2_pos m).
Proof.
  induction m as [p IH | p IH |]; cbn [digits2_pos].
  - rewrite Pos2Z.inj_succ.
    replace (Z.succ (Z.pos (digits2_pos p)) - 1) with (Z.succ (Z.pos (digits2_pos p) - 1)) by lia.
    rewrite !Z.pow_succ_r by lia. lia.
  - rewrite Pos2Z.inj_succ.
    replace (Z.succ (Z.pos (digits2_pos p)) - 1) with (Z.succ (Z.pos (digits2_pos p) - 1)) by lia.
    rewrite !Z.pow_succ_r by lia. lia.
  - cbn. lia.
Qed.

Lemma digits2_unique (m : positive) (d : Z) :
  2 ^ (d - 1) <= Z.pos m < 2 ^ d -> Z.pos (digits2_pos m) = d.
Proof.
  intros [Hlo Hhi]. pose proof (digits2_bounds m) as [Hlo' Hhi'].
  assert (0 < d).
  { destruct (Z.lt_ge_cases 0 d) as [|Hd]; [assumption |].
    assert (2 ^ d <= 2 ^ 0) by (apply Z.pow_le_mono_r; lia). cbn in *; lia. }
  destruct (Z.lt_trichotomy (Z.pos (digits2_pos m)) d) as [Hlt | [Heq | Hgt]];
    [| exact Heq |].
  - assert (2 ^ Z.pos (digits2_pos m) <= 2 ^ (d - 1))
      by (apply Z.pow_le_mono_r; lia). lia.
  - assert (2 ^ d <= 2 ^ (Z.pos (digits2_pos m) - 1))
      by (apply Z.pow_le_mono_r; lia). lia.
Qed.

Lemma valid_finite_bounds (s : bool) (m : positive) (e : Z) :
  valid_binary (S754_finite s m e) = true ->
  -1074 <= e <= 971 /\ Z.pos m < 2 ^ 53 /\ (-1074 < e -> 2 ^ 52 <= Z.pos m).
Proof.
  unfold valid_binary, SpecFloat.valid_binary, bounded, canonical_mantissa, fexp, SpecFloat.emin, prec, emax.
  intros Hv. apply andb_true_iff in Hv as [Hc He].
  apply Z.eqb_eq in Hc. apply Z.leb_le in He.
  pose proof (digits2_bounds m) as [Hlo Hhi].
  assert (Hd : Z.pos (digits2_pos m) <= 53) by lia.
  repeat split; try lia.
  - eapply Z.lt_le_trans; [exact Hhi |]. apply Z.pow_le_mono_r; lia.
  - intros Hn. assert (Z.pos (digits2_pos m) = 53) as Hd53 by lia.
    now rewrite Hd53 in Hlo.
Qed.

Lemma pow2_pos (k : Z) : 0 <= k -> 0 < 2 ^ k.
Proof. intros. apply Z.pow_pos_nonneg; lia. Qed.

Lemma pow2_split (a b : Z) : 0 <= a -> a <= b -> 2 ^ b = 2 ^ a * 2 ^ (b - a).
Proof. intros. rewrite <- Z.pow_add_r by lia. f_equal. lia. Qed.

(** Magnitudes of two valid positive numbers compare as the pairs
    (exponent, mantissa). *)
Lemma magnitude_compare (m1 m2 : positive) (e1 e2 : Z) :
  valid_binary (S754_finite false m1 e1) = true ->
  valid_binary (S754_finite false m2 e2) = true ->
  match e1 ?= e2 with
  | Lt => Lt
  | Gt => Gt
  | Eq => Pos.compare_cont Eq m1 m2
  end = (Z.pos m1 * 2 ^ (e1 + 1074) ?= Z.pos m2 * 2 ^ (e2 + 1074)).
Proof.
  intros H1 H2.
  apply valid_finite_bounds in H1 as (He1 & Hm1 & Hn1).
  apply valid_finite_bounds in H2 as (He2 & Hm2 & Hn2).
  change (2 ^ 53) with 9007199254740992 in *.
  change (2 ^ 52) with 4503599627370496 in *.
  destruct (Z.compare_spec e1 e2) as [-> | Hlt | Hgt].
  - change (Pos.compare_cont Eq m1 m2) with (Z.pos m1 ?= Z.pos m2).
    pose proof (pow2_pos (e2 + 1074) ltac:(lia)).
    symmetry. destruct (Z.compare_spec (Z.pos m1) (Z.pos m2)) as [Heq | Hl | Hg].
    + rewrite Heq. apply Z.compare_refl.
    + apply Z.compare_lt_iff. nia.
    + apply Z.compare_gt_iff. nia.
  - symmetry. apply Z.compare_lt_iff.
    rewrite (pow2_split (e1 + 1074) (e2 + 1074)) by lia.
    pose proof (pow2_pos (e1 + 1074) ltac:(lia)).
    assert (2 <= 2 ^ (e2 + 1074 - (e1 + 1074))).
    { change 2 with (2 ^ 1) at 1. apply Z.pow_le_mono_r; lia. }
    specialize (Hn2 ltac:(lia)).
    set (P := 2 ^ (e1 + 1074)) in *. set (Q := 2 ^ (e2 + 1074 - (e1 + 1074))) in *.
    assert (Z.pos m1 * P < 2 * (Z.pos m2 * P)) by nia.
    assert (2 * (Z.pos m2 * P) <= Q * (Z.pos m2 * P))
      by (apply Z.mul_le_mono_nonneg_r; nia).
    lia.
  - symmetry. apply Z.compare_gt_iff.
    rewrite (pow2_split (e2 + 1074) (e1 + 1074)) by lia.
    pose proof (pow2_pos (e2 + 1074) ltac:(lia)).
    assert (2 <= 2 ^ (e1 + 1074 - (e2 + 1074))).
    { change 2 with (2 ^ 1) at 1. apply Z.pow_le_mono_r; lia. }
    specialize (Hn1 ltac:(lia)).
    set (P := 2 ^ (e2 + 1074)) in *. set (Q := 2 ^ (e1 + 1074 - (e2 + 1074))) in *.
    assert (Z.pos m2 * P < 2 * (Z.pos m1 * P)) by nia.
    assert (2 * (Z.pos m1 * P) <= Q * (Z.pos m1 * P))
      by (apply Z.mul_le_mono_nonneg_r; nia).
    lia.
Qed.

Lemma valid_sign (s s' : bool) (m : positive) (e : Z) :
  valid_binary (S754_finite s m e) = valid_binary (S754_finite s' m e).
Proof. reflexivity. Qed.

Lemma Zv_pos (m : positive) (e : Z) :
  -1074 <= e -> 0 < Z.pos m * 2 ^ (e + 1074).
Proof. intros. pose proof (pow2_pos (e + 1074) ltac:(lia)). nia. Qed.

Lemma finite_below_overflow (s : bool) (mz : positive) (ez : Z) :
  valid_binary (S754_finite s mz ez) = true ->
  Z.pos mz * 2 ^ (ez + 1074) < 2 ^ 53 * 2 ^ (971 + 1074).
Proof.
  intros Hz. apply valid_finite_bounds in Hz as (Hez & Hmz & _).
  pose proof (pow2_pos (ez + 1074) ltac:(lia)).
  assert (2 ^ (ez + 1074) <= 2 ^ (971 + 1074))
    by (apply Z.pow_le_mono_r; lia).
  apply Z.lt_le_trans with (2 ^ 53 * 2 ^ (ez + 1074)).
  - apply Z.mul_lt_mono_pos_r; lia.
  - apply Z.mul_le_mono_nonneg_l; lia.
Qed.

Lemma overflow_below_top : 2 ^ 53 * 2 ^ (971 + 1074) < SF.top.
Proof.
  unfold SF.top. rewrite <- Z.pow_add_r by lia.
  apply Z.pow_lt_mono_r; lia.
Qed.

Lemma finite_lt_top (x : spec_float) :
  valid_binary x = true -> SF.fin x = true -> - SF.top < SF.Zv x < SF.top.
Proof.
  pose proof overflow_below_top as Htop.
  destruct x as [s | s | | s m e]; try discriminate; intros Hv _; cbn [SF.Zv].
  - lia.
  - pose proof (finite_below_overflow _ _ _ Hv).
    pose proof (valid_finite_bounds _ _ _ Hv) as (He & _).
    pose proof (Zv_pos m e ltac:(lia)).
    destruct s; lia.
Qed.

(** On valid numbers [SFcompare] is the order of the values. *)
Lemma SFcompare_fin (x y : spec_float) :
  valid_binary x = true -> valid_binary y = true ->
  SF.fin x = true -> SF.fin y = true ->
  SFcompare x y = Some (SF.Zv x ?= SF.Zv y).
Proof.
  intros Hx Hy Fx Fy.
  destruct x as [sx | sx | | sx mx ex]; try discriminate;
    destruct y as [sy | sy | | sy my ey]; try discriminate; cbn [SFcompare SF.Zv].
  - reflexivity.
  - pose proof (valid_finite_bounds _ _ _ Hy) as (He & _).
    pose proof (Zv_pos my ey ltac:(lia)).
    f_equal. symmetry. destruct sy.
    + apply Z.compare_gt_iff. lia.
    + apply Z.compare_lt_iff. lia.
  - pose proof (valid_finite_bounds _ _ _ Hx) as (He & _).
    pose proof (Zv_pos mx ex ltac:(lia)).
    f_equal. symmetry. destruct sx.
    + apply Z.compare_lt_iff. lia.
    + apply Z.compare_gt_iff. lia.
  - pose proof (valid_finite_bounds _ _ _ Hx) as (Hex & _).
    pose proof (valid_finite_bounds _ _ _ Hy) as (Hey & _).
    pose proof (Zv_pos mx ex ltac:(lia)).
    pose proof (Zv_pos my ey ltac:(lia)).
    rewrite (valid_sign sx false) in Hx. rewrite (valid_sign sy false) in Hy.
    pose proof (magnitude_compare mx my ex ey Hx Hy) as Hc.
    f_equal. destruct sx, sy.
    + replace (-1 * Z.pos mx * 2 ^ (ex + 1074)) with (- (Z.pos mx * 2 ^ (ex + 1074))) by lia.
      replace (-1 * Z.pos my * 2 ^ (ey + 1074)) with (- (Z.pos my * 2 ^ (ey + 1074))) by lia.
      rewrite Z.compare_opp, (Z.compare_antisym (Z.pos mx * _)), <- Hc.
      now destruct (ex ?= ey).
    + symmetry. apply Z.compare_lt_iff. lia.
    + symmetry. apply Z.compare_gt_iff. lia.
    + rewrite Hc. f_equal; lia.
Qed.

Lemma top_pos : 0 < SF.top.
Proof. unfold SF.top. apply pow2_pos. lia. Qed.

Lemma SFcompare_Zv (x y : spec_float) :
  valid_binary x = true -> valid_binary y = true ->
  SF.not_nan x = true -> SF.not_nan y = true ->
  SFcompare x y = Some (SF.Zv x ?= SF.Zv y).
Proof.
  intros Hx Hy Nx Ny. pose proof top_pos as Htop.
  destruct (SF.fin x) eqn:Fx; destruct (SF.fin y) eqn:Fy.
  - now apply SFcompare_fin.
  - pose proof (finite_lt_top x Hx Fx).
    destruct y as [| sy | |]; try discriminate.
    destruct x as [sx | | | sx mx ex]; try discriminate; cbn [SFcompare];
      f_equal; symmetry; cbn [SF.Zv] in *; destruct sy;
      (apply Z.compare_gt_iff; lia) || (apply Z.compare_lt_iff; lia).
  - pose proof (finite_lt_top y Hy Fy).
    destruct x as [| sx | |]; try discriminate.
    destruct y as [sy | | | sy my ey]; try discriminate; cbn [SFcompare];
      f_equal; symmetry; cbn [SF.Zv] in *; destruct sx;
      (apply Z.compare_gt_iff; lia) || (apply Z.compare_lt_iff; lia).
  - destruct x as [| sx | |]; try discriminate.
    destruct y as [| sy | |]; try discriminate.
    cbn [SFcompare SF.Zv]. f_equal. symmetry.
    destruct sx, sy;
      (apply Z.compare_eq_iff; lia) || (apply Z.compare_gt_iff; lia)
      || (apply Z.compare_lt_iff; lia).
Qed.

(** *** Right shifts with sticky bits *)

Lemma shr_1_shifted (a : shr_record) :
  0 <= shr_m a -> shifted 1 a (shr_1 a).
Proof.
  destruct a as [m r s]. cbn [shr_m]. intros Hm.
  unfold shifted, inexact. change (2 ^ 1) with 2.
  destruct m as [| p | p]; [| | lia].
  - cbn. repeat split; try lia. intros Hi. now right.
  - destruct p as [p | p |]; cbn [shr_1 shr_m shr_r shr_s].
    + rewrite Pos2Z.inj_xI. repeat split; try lia.
      * apply (Z.div_unique _ 2 _ 1); lia.
      * intros _. left. rewrite Z.add_comm, Z.mul_comm, Z.mod_add by lia.
        discriminate.
    + rewrite Pos2Z.inj_xO. repeat split; try lia.
      * apply (Z.div_unique _ 2 _ 0); lia.
      * intros Hi. now right.
    + repeat split; try lia. intros _. left. discriminate.
Qed.

Lemma shifted_trans (k1 k2 : Z) (a b c : shr_record) :
  0 <= k1 -> 0 <= k2 -> 0 <= shr_m a ->
  shifted k1 a b -> shifted k2 b c -> shifted (k1 + k2) a c.
Proof.
  intros Hk1 Hk2 Ha (Hb0 & Hb & Hbi) (Hc0 & Hc & Hci).
  pose proof (pow2_pos k1 Hk1). pose proof (pow2_pos k2 Hk2).
  repeat split; [exact Hc0 | |].
  - rewrite Hc, Hb, Z.pow_add_r, Z.div_div by lia. reflexivity.
  - intros Hi. destruct (Hci Hi) as [Hrem | Hib].
    + left. intros Hz. apply Hrem. rewrite Hb.
      rewrite Z.pow_add_r in Hz by lia.
      apply Z.mod_divide in Hz; [| lia]. destruct Hz as [q Hq].
      rewrite Hq. replace (q * (2 ^ k1 * 2 ^ k2)) with (q * 2 ^ k2 * 2 ^ k1) by ring.
      rewrite Z.div_mul by lia. apply Z.mod_mul. lia.
    + destruct (Hbi Hib) as [Hrem | Hia]; [left | now right].
      intros Hz. apply Hrem. rewrite Z.pow_add_r in Hz by lia.
      apply Z.mod_divide in Hz; [| lia]. destruct Hz as [q Hq].
      rewrite Hq. replace (q * (2 ^ k1 * 2 ^ k2)) with (q * 2 ^ k2 * 2 ^ k1) by ring.
      apply Z.mod_mul. lia.
Qed.

Lemma iter_pos_shifted (p : positive) (a : shr_record) :
  0 <= shr_m a -> shifted (Z.pos p) a (SpecFloat.iter_pos shr_1 p a).
Proof.
  revert a. induction p as [p IH | p IH |]; intros a Ha; cbn [SpecFloat.iter_pos].
  - pose proof (shr_1_shifted a Ha) as H1.
    pose proof (IH (shr_1 a) (proj1 H1)) as H2.
    pose proof (IH _ (proj1 H2)) as H3.
    replace (Z.pos p~1) with (1 + Z.pos p + Z.pos p) by lia.
    eapply shifted_trans; [lia | lia | exact Ha | | exact H3].
    eapply shifted_trans; [lia | lia | exact Ha | exact H1 | exact H2].
  - pose proof (IH a Ha) as H1.
    pose proof (IH _ (proj1 H1)) as H2.
    replace (Z.pos p~0) with (Z.pos p + Z.pos p) by lia.
    eapply shifted_trans; [lia | lia | exact Ha | exact H1 | exact H2].
  - now apply shr_1_shifted.
Qed.

(** *** Rounding a positive integer mantissa *)

Lemma fexp_eq (x : Z) : fexp prec emax x = Z.max (x - 53) (-1074).
Proof. reflexivity. Qed.

Lemma binary_round_aux_exact (mz : positive) (ez : Z) :
  fexp prec emax (Z.pos (digits2_pos mz) + ez) = ez ->
  binary_round_aux prec emax false (Z.pos mz) ez loc_Exact
  = if ez <=? 971 then S754_finite false mz ez else S754_infinity false.
Proof.
  intros Hc. unfold binary_round_aux, shr_fexp.
  cbn [Zdigits2 shr_record_of_loc]. rewrite Hc, Z.sub_diag.
  cbn [shr shr_m loc_of_shr_record round_nearest_even Zdigits2].
  rewrite Hc, Z.sub_diag. reflexivity.
Qed.

Lemma round_nearest_even_cases (a : shr_record) :
  round_nearest_even (shr_m a) (loc_of_shr_record a) = shr_m a
  \/ (round_nearest_even (shr_m a) (loc_of_shr_record a) = shr_m a + 1
      /\ inexact a = true).
Proof.
  destruct a as [m [|] [|]]; cbn; auto.
  destruct (Z.even m); auto.
Qed.

Lemma binary_round_aux_shift (m : positive) (e : Z) (p : positive) :
  Z.pos (digits2_pos m) = 53 + Z.pos p ->
  -1074 <= e ->
  exists q : positive,
    (Z.pos q = Z.pos m / 2 ^ Z.pos p
     \/ (Z.pos q = Z.pos m / 2 ^ Z.pos p + 1
         /\ Z.pos m mod 2 ^ Z.pos p <> 0))
    /\ 2 ^ 52 <= Z.pos m / 2 ^ Z.pos p < 2 ^ 53
    /\ binary_round_aux prec emax false (Z.pos m) e loc_Exact
       = if Z.pos q <? 2 ^ 53 then
           if e + Z.pos p <=? 971
           then S754_finite false q (e + Z.pos p)
           else S754_infinity false
         else
           if e + Z.pos p + 1 <=? 971
           then S754_finite false 4503599627370496 (e + Z.pos p + 1)
           else S754_infinity false.
Proof.
  intros Hd He.
  pose proof (digits2_bounds m) as [Hlo Hhi]. rewrite Hd in Hlo, Hhi.
  pose proof (pow2_pos (Z.pos p) ltac:(lia)) as Hp.
  assert (Hm' : 2 ^ 52 <= Z.pos m / 2 ^ Z.pos p < 2 ^ 53).
  { split.
    - apply Z.div_le_lower_bound; [lia |].
      rewrite <- Z.pow_add_r by lia.
      replace (Z.pos p + 52) with (53 + Z.pos p - 1) by lia. exact Hlo.
    - apply Z.div_lt_upper_bound; [lia |].
      rewrite <- Z.pow_add_r by lia. now rewrite Z.add_comm. }
  unfold binary_round_aux, shr_fexp. cbn [Zdigits2 shr_record_of_loc].
  rewrite Hd, fexp_eq.
  replace (Z.max (53 + Z.pos p + e - 53) (-1074) - e) with (Z.pos p) by lia.
  cbn [shr].
  pose proof (iter_pos_shifted p {| shr_m := Z.pos m; shr_r := false; shr_s := false |}
                ltac:(cbn; lia)) as (Hs0 & Hsm & Hsi).
  set (a := SpecFloat.iter_pos shr_1 p _) in *. cbn [shr_m] in Hsm.
  destruct (round_nearest_even_cases a) as [Hr | [Hr Hi]].
  - rewrite Hr, Hsm.
    destruct (Z.pos m / 2 ^ Z.pos p) as [| q | q] eqn:Hq; try lia.
    exists q. split; [now left |]. split; [exact Hm' |].
    assert (Hdq : Z.pos (digits2_pos q) = 53)
      by (apply digits2_unique; cbn; lia).
    cbn [Zdigits2 shr_record_of_loc]. rewrite Hdq, fexp_eq.
    replace (Z.max (53 + (e + Z.pos p) - 53) (-1074) - (e + Z.pos p)) with 0 by lia.
    cbn [shr shr_m].
    replace (Z.pos q <? 2 ^ 53) with true by (symmetry; apply Z.ltb_lt; lia).
    reflexivity.
  - rewrite Hr, Hsm.
    assert (Hne : Z.pos m mod 2 ^ Z.pos p <> 0).
    { destruct (Hsi Hi) as [Hne | Hx]; [exact Hne | discriminate]. }
    destruct (Z.pos m / 2 ^ Z.pos p + 1) as [| q | q] eqn:Hq; try lia.
    exists q. split; [right; split; [lia | exact Hne] |]. split; [exact Hm' |].
    cbn [Zdigits2 shr_record_of_loc].
    destruct (Z.ltb_spec (Z.pos q) (2 ^ 53)) as [Hlt | Hge].
    + assert (Hdq : Z.pos (digits2_pos q) = 53)
        by (apply digits2_unique; cbn; lia).
      rewrite Hdq, fexp_eq.
      replace (Z.max (53 + (e + Z.pos p) - 53) (-1074) - (e + Z.pos p)) with 0 by lia.
      reflexivity.
    + assert (Hq53 : q = 9007199254740992%positive).
      { change (2 ^ 53) with 9007199254740992 in *. lia. }
      subst q. change (Z.pos (digits2_pos 9007199254740992)) with 54.
      rewrite fexp_eq.
      replace (Z.max (54 + (e + Z.pos p) - 53) (-1074) - (e + Z.pos p)) with 1 by lia.
      reflexivity.
Qed.

Lemma shl_align_spec (m : positive) (e f : Z) :
  f <= e ->
  exists mz : positive,
    shl_align m e f = (mz, f)
    /\ Z.pos mz = Z.pos m * 2 ^ (e - f)
    /\ Z.pos (digits2_pos mz) = Z.pos (digits2_pos m) + (e - f).
Proof.
  intros Hf. unfold shl_align.
  destruct (f - e) as [| p | p] eqn:Hfe; try lia.
  - exists m. replace (e - f) with 0 by lia. replace f with e by lia.
    rewrite Z.mul_1_r, Z.add_0_r. auto.
  - exists (Pos.iter xO m p).
    assert (Hz : Z.pos (Pos.iter xO m p) = Z.pos m * 2 ^ (e - f)).
    { change (Pos.iter xO m p) with (shift_pos p m).
      rewrite shift_pos_correct. replace (e - f) with (Z.pos p) by lia.
      change (Z.pow_pos 2 p) with (2 ^ Z.pos p). ring. }
    repeat split; [exact Hz |].
    pose proof (digits2_bounds m) as [Hlo Hhi].
    pose proof (pow2_pos (e - f) ltac:(lia)).
    apply digits2_unique. rewrite Hz. split.
    + replace (Z.pos (digits2_pos m) + (e - f) - 1)
        with (Z.pos (digits2_pos m) - 1 + (e - f)) by lia.
      rewrite Z.pow_add_r by lia. nia.
    + rewrite Z.pow_add_r by lia. nia.
Qed.

Lemma binary_round_pos (m : positive) (e : Z) :
  -1074 <= e ->
  rounds_to (Z.pos m * 2 ^ (e + 1074)) (binary_round prec emax false m e).
Proof.
  intros He. unfold binary_round.
  pose proof (digits2_bounds m) as [Hlo Hhi].
  set (d := Z.pos (digits2_pos m)) in *.
  destruct (Z.le_gt_cases d 53) as [Hd | Hd].
  - (* the mantissa fits: the result is exact *)
    set (f := fexp prec emax (d + e)).
    assert (Hf : f = Z.max (d + e - 53) (-1074)) by reflexivity.
    destruct (shl_align_spec m e f ltac:(lia)) as (mz & -> & Hmz & Hdz).
    fold d in Hdz.
    rewrite binary_round_aux_exact
      by (rewrite Hdz, fexp_eq; lia).
    pose proof (digits2_bounds mz) as [Hzlo Hzhi]. rewrite Hdz in Hzlo, Hzhi.
    assert (Hz53 : Z.pos mz < 2 ^ 53).
    { eapply Z.lt_le_trans; [exact Hzhi |]. apply Z.pow_le_mono_r; lia. }
    assert (Hnorm : f = -1074 \/ 2 ^ 52 <= Z.pos mz).
    { destruct (Z.eq_dec f (-1074)) as [| Hne]; [now left | right].
      replace (d + (e - f) - 1) with 52 in Hzlo by lia. exact Hzlo. }
    assert (HV : Z.pos mz * 2 ^ (f + 1074) = Z.pos m * 2 ^ (e + 1074)).
    { rewrite Hmz. rewrite (pow2_split (f + 1074) (e + 1074)) by lia.
      replace (e + 1074 - (f + 1074)) with (e - f) by lia. ring. }
    pose proof (pow2_pos (f + 1074) ltac:(lia)) as Hu.
    exists (Z.pos mz), (Z.pos mz), f.
    split; [lia |]. split; [lia |]. split; [exact Hnorm |].
    split; [lia |]. split; [now left |].
    destruct (Z.leb_spec f 971) as [Hle | Hgt].
    + right. exists mz, f. auto.
    + left. split; [reflexivity |].
      destruct Hnorm as [| Hn]; [lia |].
      assert (2 ^ (972 + 1074) <= 2 ^ (f + 1074))
        by (apply Z.pow_le_mono_r; lia).
      change (2 ^ 53 * 2 ^ (971 + 1074)) with (2 ^ 52 * 2 ^ (972 + 1074)).
      apply Z.mul_le_mono_nonneg; try lia.
  - (* the mantissa is shifted right and rounded *)
    assert (Hal : shl_align m e (fexp prec emax (d + e)) = (m, e)).
    { unfold shl_align. rewrite fexp_eq.
      destruct (Z.max (d + e - 53) (-1074) - e) eqn:Hx; try reflexivity; lia. }
    rewrite Hal.
    destruct (d - 53) as [| p | p] eqn:Hp; try lia.
    destruct (binary_round_aux_shift m e p ltac:(fold d; lia) He)
      as (q & Hq & Hm' & ->).
    pose proof (pow2_pos (Z.pos p) ltac:(lia)) as H2p.
    pose proof (pow2_pos (e + 1074) ltac:(lia)) as H2e.
    pose proof (Z.div_mod (Z.pos m) (2 ^ Z.pos p) ltac:(lia)) as Hdm.
    pose proof (Z.mod_pos_bound (Z.pos m) (2 ^ Z.pos p) ltac:(lia)) as Hrem.
    set (m' := Z.pos m / 2 ^ Z.pos p) in *.
    set (rem := Z.pos m mod 2 ^ Z.pos p) in *.
    assert (Hu : 2 ^ (e + Z.pos p + 1074) = 2 ^ Z.pos p * 2 ^ (e + 1074)).
    { rewrite <- Z.pow_add_r by lia. f_equal. lia. }
    exists m', (Z.pos q), (e + Z.pos p).
    split; [lia |]. split; [lia |]. split; [right; lia |].
    split; [rewrite Hu; nia |].
    split.
    { destruct Hq as [Hq | [Hq Hne]]; [now left | right].
      split; [exact Hq |]. rewrite Hu. nia. }
    assert (Hq53 : Z.pos q <= 2 ^ 53) by lia.
    assert (Hq52 : 2 ^ 52 <= Z.pos q) by lia.
    destruct (Z.ltb_spec (Z.pos q) (2 ^ 53)) as [Hlt | Hge].
    + destruct (Z.leb_spec (e + Z.pos p) 971) as [Hle | Hgt].
      * right. exists q, (e + Z.pos p). auto.
      * left. split; [reflexivity |].
        assert (2 ^ (972 + 1074) <= 2 ^ (e + Z.pos p + 1074))
          by (apply Z.pow_le_mono_r; lia).
        change (2 ^ 53 * 2 ^ (971 + 1074)) with (2 ^ 52 * 2 ^ (972 + 1074)).
        apply Z.mul_le_mono_nonneg; try lia.
    + assert (Hq' : Z.pos q = 2 ^ 53) by lia.
      destruct (Z.leb_spec (e + Z.pos p + 1) 971) as [Hle | Hgt].
      * right. exists 4503599627370496%positive, (e + Z.pos p + 1).
        split; [reflexivity |]. rewrite Hq'.
        replace (e + Z.pos p + 1 + 1074) with (1 + (e + Z.pos p + 1074)) by lia.
        rewrite (Z.pow_add_r 2 1) by lia.
        change (2 ^ 1) with 2. change (2 ^ 53) with 9007199254740992. lia.
      * left. split; [reflexivity |]. rewrite Hq'.
        assert (2 ^ (971 + 1074) <= 2 ^ (e + Z.pos p + 1074))
          by (apply Z.pow_le_mono_r; lia).
        apply Z.mul_le_mono_nonneg_l; lia.
Qed.

(** A valid positive number is a multiple of any finer unit of the
    format, and lies below the normal numbers of any coarser unit. *)
Lemma finite_grid (mz : positive) (ez e' : Z) :
  valid_binary (S754_finite false mz ez) = true ->
  -1074 <= e' ->
  (exists K : Z, Z.pos mz * 2 ^ (ez + 1074) = K * 2 ^ (e' + 1074))
  \/ (e' <> -1074 /\ Z.pos mz * 2 ^ (ez + 1074) < 2 ^ 52 * 2 ^ (e' + 1074)).
Proof.
  intros Hz He'. apply valid_finite_bounds in Hz as (Hez & Hmz & _).
  destruct (Z.le_gt_cases e' ez) as [Hle | Hgt].
  - left. exists (Z.pos mz * 2 ^ (ez - e')).
    rewrite (pow2_split (e' + 1074) (ez + 1074)) by lia.
    replace (ez + 1074 - (e' + 1074)) with (ez - e') by lia. ring.
  - right. split; [lia |].
    pose proof (pow2_pos (ez + 1074) ltac:(lia)).
    assert (2 ^ (ez + 1 + 1074) <= 2 ^ (e' + 1074))
      by (apply Z.pow_le_mono_r; lia).
    replace (ez + 1 + 1074) with (1 + (ez + 1074)) in * by lia.
    rewrite (Z.pow_add_r 2 1) in * by lia.
    change (2 ^ 1) with 2 in *. change (2 ^ 53) with (2 ^ 52 * 2) in Hmz.
    change (2 ^ 52) with 4503599627370496 in *. nia.
Qed.

Lemma rounds_to_positive (V : Z) (r : spec_float) :
  rounds_to V r ->
  0 < V
  /\ (r = S754_infinity false
      \/ exists mr er, r = S754_finite false mr er /\ 0 < SF.Zv r).
Proof.
  intros (m' & m'' & e' & He' & Hm' & Hnorm & HV & Hm'' & Hr).
  pose proof (pow2_pos (e' + 1074) ltac:(lia)) as Hu.
  split; [nia |].
  destruct Hr as [[-> _] | (mr & er & -> & Hval)]; [now left | right].
  exists mr, er. split; [reflexivity |]. cbn [SF.Zv]. nia.
Qed.

(** Rounding is monotone with respect to the numbers of the format. *)
Lemma rounds_to_upper (V : Z) (r z : spec_float) :
  rounds_to V r ->
  valid_binary z = true -> SF.fin z = true ->
  V <= SF.Zv z ->
  SF.fin r = true /\ SF.Zv r <= SF.Zv z.
Proof.
  intros (m' & m'' & e' & He' & Hm' & Hnorm & HV & Hm'' & Hr) Hz Fz Hle.
  pose proof (pow2_pos (e' + 1074) ltac:(lia)) as Hu.
  assert (HVpos : 0 < V) by nia.
  destruct z as [sz | | | sz mz ez]; try discriminate; cbn [SF.Zv] in Hle;
    [lia |].
  pose proof (valid_finite_bounds _ _ _ Hz) as (Hez & _).
  pose proof (Zv_pos mz ez ltac:(lia)) as Hzpos.
  destruct sz; [lia |].
  pose proof (finite_below_overflow _ _ _ Hz) as Hmax.
  replace (1 * Z.pos mz * 2 ^ (ez + 1074)) with (Z.pos mz * 2 ^ (ez + 1074))
    in Hle by ring.
  assert (Hbound : m'' * 2 ^ (e' + 1074) <= Z.pos mz * 2 ^ (ez + 1074)).
  { destruct (finite_grid mz ez e' Hz He') as [[K HK] | [Hne Hlow]].
    - rewrite HK in *. apply Z.mul_le_mono_nonneg_r; [lia |].
      destruct Hm'' as [-> | [-> Hlt]].
      + apply (Z.mul_le_mono_pos_r _ _ (2 ^ (e' + 1074))); lia.
      + assert (m' < K)
          by (apply (Z.mul_lt_mono_pos_r (2 ^ (e' + 1074))); lia).
        lia.
    - destruct Hnorm as [| Hn]; [lia |].
      assert (2 ^ 52 * 2 ^ (e' + 1074) <= m' * 2 ^ (e' + 1074))
        by (apply Z.mul_le_mono_nonneg_r; lia).
      lia. }
  destruct Hr as [[-> Hover] | (mr & er & -> & Hval)]; [lia |].
  split; [reflexivity |]. cbn [SF.Zv]. lia.
Qed.

Lemma rounds_to_lower (V : Z) (r z : spec_float) :
  rounds_to V r ->
  valid_binary z = true -> SF.fin z = true ->
  SF.Zv z <= V ->
  r = S754_infinity false \/ (SF.fin r = true /\ SF.Zv z <= SF.Zv r).
Proof.
  intros (m' & m'' & e' & He' & Hm' & Hnorm & HV & Hm'' & Hr) Hz Fz Hle.
  pose proof (pow2_pos (e' + 1074) ltac:(lia)) as Hu.
  destruct Hr as [[-> Hover] | (mr & er & -> & Hval)]; [now left | right].
  split; [reflexivity |]. cbn [SF.Zv SF.fin]. rewrite Z.mul_1_l, Hval.
  assert (Hm''pos : m' <= m'') by (destruct Hm'' as [-> | [-> _]]; lia).
  destruct z as [sz | | | sz mz ez]; try discriminate; cbn [SF.Zv] in *;
    [nia |].
  pose proof (valid_finite_bounds _ _ _ Hz) as (Hez & _).
  pose proof (Zv_pos mz ez ltac:(lia)) as Hzpos.
  destruct sz; [nia |].
  replace (1 * Z.pos mz * 2 ^ (ez + 1074)) with (Z.pos mz * 2 ^ (ez + 1074))
    in * by ring.
  destruct (finite_grid mz ez e' Hz He') as [[K HK] | [Hne Hlow]].
  - rewrite HK in *. apply Z.mul_le_mono_nonneg_r; [lia |].
    assert (K < m' + 1)
      by (apply (Z.mul_lt_mono_pos_r (2 ^ (e' + 1074))); lia).
    lia.
  - destruct Hnorm as [| Hn]; [lia |].
    assert (2 ^ 52 * 2 ^ (e' + 1074) <= m'' * 2 ^ (e' + 1074))
      by (apply Z.mul_le_mono_nonneg_r; lia).
    lia.
Qed.

(** *** Subtraction *)

Lemma binary_round_sign (m : positive) (e : Z) :
  binary_round prec emax true m e
  = SFopp (binary_round prec emax false m e).
Proof.
  unfold binary_round. destruct (shl_align m e _) as [mz ez].
  unfold binary_round_aux.
  destruct (shr_fexp prec emax (Z.pos mz) ez loc_Exact) as [mrs' e'].
  destruct (shr_fexp prec emax _ e' loc_Exact) as [mrs'' e''].
  destruct (shr_m mrs''); try reflexivity.
  now destruct (e'' <=? emax - prec).
Qed.

Lemma rounds_to_exact (m : positive) (e : Z) :
  valid_binary (S754_finite false m e) = true ->
  rounds_to (Z.pos m * 2 ^ (e + 1074)) (S754_finite false m e).
Proof.
  intros Hv. pose proof (valid_finite_bounds _ _ _ Hv) as (He & Hm & Hn).
  pose proof (pow2_pos (e + 1074) ltac:(lia)).
  exists (Z.pos m), (Z.pos m), e.
  split; [lia |]. split; [lia |].
  split; [destruct (Z.eq_dec e (-1074)); [now left | right; apply Hn; lia] |].
  split; [lia |]. split; [now left |].
  right. exists m, e. auto.
Qed.

Lemma SFopp_involutive (x : spec_float) : SFopp (SFopp x) = x.
Proof. destruct x as [[] | [] | | [] ? ?]; reflexivity. Qed.

Lemma sub_rounds_finite (s : bool) (m : positive) (e : Z) :
  valid_binary (S754_finite s m e) = true ->
  sub_rounds (SF.Zv (S754_finite s m e)) (S754_finite s m e).
Proof.
  intros Hv. pose proof (valid_finite_bounds _ _ _ Hv) as (He & _).
  pose proof (Zv_pos m e ltac:(lia)) as Hpos.
  unfold sub_rounds. cbn [SF.Zv]. destruct s.
  - replace (-1 * Z.pos m * 2 ^ (e + 1074) ?= 0) with Lt
      by (symmetry; apply Z.compare_lt_iff; lia).
    replace (- (-1 * Z.pos m * 2 ^ (e + 1074))) with (Z.pos m * 2 ^ (e + 1074))
      by ring.
    now apply rounds_to_exact.
  - replace (1 * Z.pos m * 2 ^ (e + 1074) ?= 0) with Gt
      by (symmetry; apply Z.compare_gt_iff; lia).
    rewrite Z.mul_1_l. now apply rounds_to_exact.
Qed.

Lemma cond_Zopp_mul (s : bool) (m : Z) :
  cond_Zopp s m = (if s then -1 else 1) * m.
Proof. destruct s; cbn [cond_Zopp]; lia. Qed.

Lemma SFsub_finite_normalize (sx sy : bool) (mx my : positive) (ex ey : Z) :
  valid_binary (S754_finite sx mx ex) = true ->
  valid_binary (S754_finite sy my ey) = true ->
  exists M ez : Z,
    -1074 <= ez
    /\ SF64sub (S754_finite sx mx ex) (S754_finite sy my ey)
       = binary_normalize prec emax M ez false
    /\ SF.Zv (S754_finite sx mx ex) - SF.Zv (S754_finite sy my ey)
       = M * 2 ^ (ez + 1074).
Proof.
  intros Hx Hy.
  pose proof (valid_finite_bounds _ _ _ Hx) as (Hex & _).
  pose proof (valid_finite_bounds _ _ _ Hy) as (Hey & _).
  unfold SF64sub. cbn [SFsub]. set (ez := Z.min ex ey).
  destruct (shl_align_spec mx ex ez ltac:(lia)) as (mx' & -> & Hmx' & _).
  destruct (shl_align_spec my ey ez ltac:(lia)) as (my' & -> & Hmy' & _).
  cbn [fst]. rewrite !cond_Zopp_mul, Hmx', Hmy'.
  eexists _, ez. split; [lia |]. split; [reflexivity |].
  cbn [SF.Zv].
  rewrite (pow2_split (ez + 1074) (ex + 1074)) by lia.
  rewrite (pow2_split (ez + 1074) (ey + 1074)) by lia.
  replace (ex + 1074 - (ez + 1074)) with (ex - ez) by lia.
  replace (ey + 1074 - (ez + 1074)) with (ey - ez) by lia. ring.
Qed.

Lemma SFsub_rounds (x y : spec_float) :
  valid_binary x = true -> valid_binary y = true ->
  SF.fin x = true -> SF.fin y = true ->
  sub_rounds (SF.Zv x - SF.Zv y) (SF64sub x y).
Proof.
  intros Hx Hy Fx Fy.
  destruct x as [sx | | | sx mx ex]; try discriminate;
    destruct y as [sy | | | sy my ey]; try discriminate.
  - unfold sub_rounds. cbn [SF.Zv]. change (0 - 0 ?= 0) with Eq.
    destruct sx, sy; cbn; eauto.
  - change (SF64sub (S754_zero sx) (S754_finite sy my ey))
      with (S754_finite (negb sy) my ey).
    replace (SF.Zv (S754_zero sx) - SF.Zv (S754_finite sy my ey))
      with (SF.Zv (S754_finite (negb sy) my ey))
      by (cbn [SF.Zv]; destruct sy; cbn [negb]; lia).
    apply sub_rounds_finite. now rewrite (valid_sign _ sy).
  - change (SF64sub (S754_finite sx mx ex) (S754_zero sy))
      with (S754_finite sx mx ex).
    replace (SF.Zv (S754_finite sx mx ex) - SF.Zv (S754_zero sy))
      with (SF.Zv (S754_finite sx mx ex)) by (cbn [SF.Zv]; lia).
    now apply sub_rounds_finite.
  - destruct (SFsub_finite_normalize sx sy mx my ex ey Hx Hy)
      as (M & ez & Hez & -> & ->).
    pose proof (pow2_pos (ez + 1074) ltac:(lia)) as Hu.
    unfold sub_rounds. destruct M as [| p | p]; cbn [binary_normalize].
    + rewrite Z.mul_0_l. cbn. eauto.
    + replace (Z.pos p * 2 ^ (ez + 1074) ?= 0) with Gt
        by (symmetry; apply Z.compare_gt_iff; lia).
      apply binary_round_pos. lia.
    + replace (Z.neg p * 2 ^ (ez + 1074) ?= 0) with Lt
        by (symmetry; apply Z.compare_lt_iff; lia).
      rewrite binary_round_sign, SFopp_involutive.
      replace (- (Z.neg p * 2 ^ (ez + 1074))) with (Z.pos p * 2 ^ (ez + 1074))
        by lia.
      apply binary_round_pos. lia.
Qed.

(** Equal finite non-zero numbers subtract to [+0]. *)
Lemma SFsub_equal (sx sy : bool) (mx my : positive) (ex ey : Z) :
  valid_binary (S754_finite sx mx ex) = true ->
  valid_binary (S754_finite sy my ey) = true ->
  SF.Zv (S754_finite sx mx ex) = SF.Zv (S754_finite sy my ey) ->
  SF64sub (S754_finite sx mx ex) (S754_finite sy my ey) = S754_zero false.
Proof.
  intros Hx Hy Heq.
  destruct (SFsub_finite_normalize sx sy mx my ex ey Hx Hy)
    as (M & ez & Hez & -> & HV).
  pose proof (pow2_pos (ez + 1074) ltac:(lia)) as Hu.
  assert (M = 0) by nia. now subst M.
Qed.

Lemma Zv_opp (x : spec_float) : SF.Zv (SFopp x) = - SF.Zv x.
Proof. destruct x as [[] | [] | | [] ? ?]; cbn [SFopp SF.Zv negb]; lia. Qed.

(** What a rounded difference [r] of the exact value [V] keeps of [V]:
    its sign, and its order with respect to every number of the format. *)
Lemma sub_rounds_order (V : Z) (r : spec_float) :
  sub_rounds V r -> valid_binary r = true -> - SF.top < V < SF.top ->
  SF.not_nan r = true
  /\ (V = 0 -> SF.Zv r = 0)
  /\ (forall z, valid_binary z = true -> SF.not_nan z = true ->
             SF.Zv z <= V -> SF.Zv z <= SF.Zv r)
  /\ (forall z, valid_binary z = true -> SF.not_nan z = true ->
             V <= SF.Zv z -> SF.Zv r <= SF.Zv z).
Proof.
  unfold sub_rounds. intros Hr Hv HV. pose proof top_pos as Htop.
  destruct (Z.compare_spec V 0) as [-> | Hneg | Hpos].
  - destruct Hr as [s ->]. cbn [SF.Zv]. repeat split; auto.
  - pose proof (rounds_to_positive _ _ Hr) as [_ Hshape].
    assert (Hr' : SF.not_nan r = true /\ SF.Zv r < 0
                  /\ (SF.fin r = true \/ r = S754_infinity true)).
    { destruct Hshape as [Hinf | (mr & er & Hfin & Hp)].
      - destruct r as [| [] | |]; try discriminate. cbn [SF.Zv]. intuition lia.
      - rewrite Zv_opp in Hp.
        destruct r as [| | | [] ? ?]; try discriminate; intuition lia. }
    destruct Hr' as (Hn & Hrneg & Hrfin).
    split; [exact Hn |]. split; [lia |]. split.
    + intros z Hz Nz Hle. destruct (SF.fin z) eqn:Fz.
      * assert (HzO : valid_binary (SFopp z) = true)
          by (destruct z as [[] | [] | | [] ? ?]; exact Hz).
        assert (FzO : SF.fin (SFopp z) = true)
          by (destruct z as [[] | [] | | [] ? ?]; exact Fz).
        pose proof (rounds_to_upper _ _ _ Hr HzO FzO) as Hup.
        rewrite !Zv_opp in Hup. specialize (Hup ltac:(lia)). lia.
      * destruct z as [| [] | |]; try discriminate; cbn [SF.Zv] in *; [| lia].
        destruct Hrfin as [Fr | ->]; [| cbn [SF.Zv]; lia].
        pose proof (finite_lt_top r Hv Fr). lia.
    + intros z Hz Nz Hle. destruct (SF.fin z) eqn:Fz.
      * assert (HzO : valid_binary (SFopp z) = true)
          by (destruct z as [[] | [] | | [] ? ?]; exact Hz).
        assert (FzO : SF.fin (SFopp z) = true)
          by (destruct z as [[] | [] | | [] ? ?]; exact Fz).
        pose proof (rounds_to_lower _ _ _ Hr HzO FzO) as Hlo.
        rewrite !Zv_opp in Hlo. specialize (Hlo ltac:(lia)).
        destruct Hlo as [Hinf | [_ Hlo]]; [| lia].
        destruct r as [| [] | |]; try discriminate. cbn [SF.Zv].
        pose proof (finite_lt_top z Hz Fz). lia.
      * destruct z as [| [] | |]; try discriminate; cbn [SF.Zv] in *; lia.
  - pose proof (rounds_to_positive _ _ Hr) as [_ Hshape].
    assert (Hr' : SF.not_nan r = true /\ 0 < SF.Zv r
                  /\ (SF.fin r = true \/ r = S754_infinity false)).
    { destruct Hshape as [-> | (mr & er & -> & Hp)].
      - cbn [SF.Zv]. intuition lia.
      - intuition lia. }
    destruct Hr' as (Hn & Hrpos & Hrfin).
    split; [exact Hn |]. split; [lia |]. split.
    + intros z Hz Nz Hle. destruct (SF.fin z) eqn:Fz.
      * destruct (rounds_to_lower _ _ _ Hr Hz Fz Hle) as [-> | [_ Hlo]];
          [| exact Hlo].
        cbn [SF.Zv]. pose proof (finite_lt_top z Hz Fz). lia.
      * destruct z as [| [] | |]; try discriminate; cbn [SF.Zv] in *; lia.
    + intros z Hz Nz Hle. destruct (SF.fin z) eqn:Fz.
      * now apply (rounds_to_upper _ _ _ Hr Hz Fz).
      * destruct z as [| [] | |]; try discriminate; cbn [SF.Zv] in *; [lia |].
        destruct Hrfin as [Fr | ->]; [| cbn [SF.Zv]; lia].
        pose proof (finite_lt_top r Hv Fr). lia.
Qed.

(** ** Order and subtraction of primitive floats *)

Lemma SFeqb_refl (x : spec_float) : SFeqb x x = SF.not_nan x.
Proof.
  unfold SFeqb. destruct x as [s | s | | s m e]; cbn [SFcompare SF.not_nan];
    try reflexivity.
  - now destruct s.
  - rewrite Z.compare_refl. change (Pos.compare_cont Eq m m) with (m ?= m)%positive.
    rewrite Pos.compare_refl. now destruct s.
Qed.

Lemma is_nan_num (x : float) : PrimFloat.is_nan x = negb (Fl.num x).
Proof.
  unfold PrimFloat.is_nan, Fl.num. now rewrite FloatAxioms.eqb_spec, SFeqb_refl.
Qed.

Lemma is_zero_SF (x : float) :
  PrimFloat.is_zero x
  = match Prim2SF x with S754_zero _ => true | _ => false end.
Proof.
  unfold PrimFloat.is_zero. rewrite FloatAxioms.eqb_spec.
  change (Prim2SF zero) with (S754_zero false).
  destruct (Prim2SF x) as [s | s | | s m e]; try reflexivity; now destruct s.
Qed.

Lemma leb_iff (x y : float) :
  PrimFloat.leb x y = true
  <-> Fl.num x = true /\ Fl.num y = true /\ Fl.R x <= Fl.R y.
Proof.
  rewrite FloatAxioms.leb_spec. unfold SFleb, Fl.num, Fl.R.
  pose proof (Prim2SF_valid x) as Hx. pose proof (Prim2SF_valid y) as Hy.
  destruct (SF.not_nan (Prim2SF x)) eqn:Nx.
  - destruct (SF.not_nan (Prim2SF y)) eqn:Ny.
    + rewrite (SFcompare_Zv _ _ Hx Hy Nx Ny).
      destruct (Z.compare_spec (SF.Zv (Prim2SF x)) (SF.Zv (Prim2SF y)));
        split; try tauto; try lia; intros; repeat split; auto; lia.
    + destruct (Prim2SF y); try discriminate.
      destruct (Prim2SF x); cbn; split; intros; try discriminate; tauto.
  - destruct (Prim2SF x); try discriminate.
    cbn. split; intros; try discriminate; tauto.
Qed.

Lemma ltb_iff (x y : float) :
  PrimFloat.ltb x y = true
  <-> Fl.num x = true /\ Fl.num y = true /\ Fl.R x < Fl.R y.
Proof.
  rewrite FloatAxioms.ltb_spec. unfold SFltb, Fl.num, Fl.R.
  pose proof (Prim2SF_valid x) as Hx. pose proof (Prim2SF_valid y) as Hy.
  destruct (SF.not_nan (Prim2SF x)) eqn:Nx.
  - destruct (SF.not_nan (Prim2SF y)) eqn:Ny.
    + rewrite (SFcompare_Zv _ _ Hx Hy Nx Ny).
      destruct (Z.compare_spec (SF.Zv (Prim2SF x)) (SF.Zv (Prim2SF y)));
        split; try tauto; try lia; intros; repeat split; auto; lia.
    + destruct (Prim2SF y); try discriminate.
      destruct (Prim2SF x); cbn; split; intros; try discriminate; tauto.
  - destruct (Prim2SF x); try discriminate.
    cbn. split; intros; try discriminate; tauto.
Qed.

Lemma R_zero : Fl.R 0 = 0.
Proof. reflexivity. Qed.

Lemma num_zero : Fl.num 0 = true.
Proof. reflexivity. Qed.

Lemma R_infinity : Fl.R infinity = SF.top.
Proof. reflexivity. Qed.

Lemma finite_iff (x : float) :
  Fl.finite x = true <-> Fl.num x = true /\ - SF.top < Fl.R x < SF.top.
Proof.
  unfold Fl.finite, Fl.num, Fl.R. pose proof top_pos.
  split.
  - intros Fx. pose proof (finite_lt_top _ (Prim2SF_valid x) Fx).
    split; [| lia]. now destruct (Prim2SF x).
  - intros [Nx Hx]. destruct (Prim2SF x) as [| [] | |]; try reflexivity;
      try discriminate; cbn [SF.Zv] in Hx; lia.
Qed.

Lemma sub_finite (x y : float) :
  Fl.finite x = true -> Fl.finite y = true ->
  Fl.num (PrimFloat.sub x y) = true
  /\ (Fl.R x = Fl.R y -> Fl.R (PrimFloat.sub x y) = 0)
  /\ (forall z : float, Fl.num z = true ->
        Fl.R z <= Fl.R x - Fl.R y -> Fl.R z <= Fl.R (PrimFloat.sub x y))
  /\ (forall z : float, Fl.num z = true ->
        Fl.R x - Fl.R y <= Fl.R z -> Fl.R (PrimFloat.sub x y) <= Fl.R z).
Proof.
  intros Fx Fy.
  pose proof (proj1 (finite_iff x) Fx) as [_ Bx].
  pose proof (proj1 (finite_iff y) Fy) as [_ By].
  pose proof (SFsub_rounds _ _ (Prim2SF_valid x) (Prim2SF_valid y) Fx Fy) as Hr.
  rewrite <- sub_spec in Hr.
  assert (HV : - SF.top < Fl.R x - Fl.R y < SF.top).
  { (* a difference of two finite values stays below 2^2100 *)
    pose proof overflow_below_top. unfold Fl.R in *.
    assert (Hb : forall v, valid_binary v = true -> SF.fin v = true ->
                           - (2 ^ 53 * 2 ^ (971 + 1074)) < SF.Zv v
                           < 2 ^ 53 * 2 ^ (971 + 1074)).
    { intros v Hv Fv. destruct v as [s | s | | s m e]; try discriminate;
        cbn [SF.Zv].
      - assert (0 < 2 ^ 53 * 2 ^ (971 + 1074))
          by (apply Z.mul_pos_pos; apply pow2_pos; lia).
        lia.
      - pose proof (finite_below_overflow _ _ _ Hv).
        pose proof (valid_finite_bounds _ _ _ Hv) as (He & _).
        pose proof (Zv_pos m e ltac:(lia)). destruct s; lia. }
    pose proof (Hb _ (Prim2SF_valid x) Fx). pose proof (Hb _ (Prim2SF_valid y) Fy).
    assert (2 * (2 ^ 53 * 2 ^ (971 + 1074)) <= SF.top).
    { unfold SF.top. rewrite <- Z.pow_add_r by lia.
      change 2 with (2 ^ 1) at 1. rewrite <- Z.pow_add_r by lia.
      apply Z.pow_le_mono_r; lia. }
    lia. }
  destruct (sub_rounds_order _ _ Hr (Prim2SF_valid _) HV)
    as (Hn & H0 & Hlo & Hup).
  unfold Fl.R in *.
  split; [exact Hn |]. split; [intros; apply H0; lia |]. split.
  - intros z Nz. apply Hlo; [apply Prim2SF_valid | exact Nz].
  - intros z Nz. apply Hup; [apply Prim2SF_valid | exact Nz].
Qed.

Lemma sub_infinite (x y : float) :
  Fl.num x = true -> Fl.num y = true ->
  Fl.finite x && Fl.finite y = false ->
  (Fl.R y < Fl.R x -> Prim2SF (PrimFloat.sub x y) = S754_infinity false)
  /\ (Fl.R x < Fl.R y -> Prim2SF (PrimFloat.sub x y) = S754_infinity true).
Proof.
  unfold Fl.num, Fl.finite, Fl.R. rewrite sub_spec. unfold SF64sub.
  pose proof top_pos as Htop.
  pose proof (finite_lt_top _ (Prim2SF_valid x)) as Bx.
  pose proof (finite_lt_top _ (Prim2SF_valid y)) as By.
  intros Nx Ny Hinf.
  destruct (Prim2SF x) as [sx | sx | | sx mx ex]; try discriminate;
    destruct (Prim2SF y) as [sy | sy | | sy my ey]; try discriminate;
    cbn [SF.fin andb] in *; try discriminate;
    try specialize (Bx eq_refl); try specialize (By eq_refl);
    cbn [SF.Zv SFsub] in *;
    try destruct sx; try destruct sy; cbn [negb]; split; intros; try lia;
    reflexivity.
Qed.

(** The smallest positive float, one unit. *)
Lemma R_min_pos :
  Fl.num 5e-324 = true /\ Fl.R 5e-324 = 1 /\ Fl.R (- 5e-324) = -1
  /\ Fl.num (- 5e-324) = true.
Proof. repeat split. Qed.

(** [y < x] makes [x - y] positive. *)
Lemma sub_pos (x y : float) :
  PrimFloat.ltb y x = true -> PrimFloat.ltb 0 (PrimFloat.sub x y) = true.
Proof.
  intros Hlt. apply ltb_iff in Hlt as (Ny & Nx & Hlt).
  apply ltb_iff. rewrite R_zero. split; [reflexivity |].
  destruct (Fl.finite x && Fl.finite y) eqn:Hf.
  - apply andb_true_iff in Hf as [Fx Fy].
    destruct (sub_finite x y Fx Fy) as (Hn & _ & Hlo & _).
    split; [exact Hn |].
    destruct R_min_pos as (Hn1 & H1 & _).
    specialize (Hlo _ Hn1). rewrite H1 in Hlo. lia.
  - destruct (sub_infinite x y Nx Ny Hf) as [Hinf _].
    unfold Fl.num, Fl.R. rewrite (Hinf Hlt). split; [reflexivity |].
    apply top_pos.
Qed.

(** [x < y] makes [x - y] negative. *)
Lemma sub_neg (x y : float) :
  PrimFloat.ltb x y = true -> PrimFloat.ltb (PrimFloat.sub x y) 0 = true.
Proof.
  intros Hlt. apply ltb_iff in Hlt as (Nx & Ny & Hlt).
  apply ltb_iff. rewrite R_zero.
  destruct (Fl.finite x && Fl.finite y) eqn:Hf.
  - apply andb_true_iff in Hf as [Fx Fy].
    destruct (sub_finite x y Fx Fy) as (Hn & _ & _ & Hup).
    split; [exact Hn |]. split; [reflexivity |].
    destruct R_min_pos as (_ & _ & H1 & Hn1).
    specialize (Hup _ Hn1). rewrite H1 in Hup. lia.
  - destruct (sub_infinite x y Nx Ny Hf) as [_ Hinf].
    unfold Fl.num, Fl.R. rewrite (Hinf Hlt). split; [reflexivity |].
    split; [reflexivity |]. cbn [SF.Zv]. pose proof top_pos. lia.
Qed.

(** Subtracting a finite positive amount from a non-negative number does
    not increase it. *)
Lemma sub_le_self (x a : float) :
  PrimFloat.leb 0 x = true ->
  PrimFloat.ltb 0 a = true -> PrimFloat.ltb a infinity = true ->
  PrimFloat.leb (PrimFloat.sub x a) x = true.
Proof.
  intros Hx Ha Hfin.
  apply leb_iff in Hx as (_ & Nx & Hx). rewrite R_zero in Hx.
  apply ltb_iff in Ha as (_ & Na & Ha). rewrite R_zero in Ha.
  apply ltb_iff in Hfin as (_ & _ & Hfin). rewrite R_infinity in Hfin.
  assert (Fa : Fl.finite a = true) by (apply finite_iff; split; [auto | lia]).
  apply leb_iff. destruct (Fl.finite x) eqn:Fx.
  - destruct (sub_finite x a Fx Fa) as (Hn & _ & _ & Hup).
    split; [exact Hn |]. split; [exact Nx |]. apply Hup; [exact Nx | lia].
  - assert (Hxinf : Prim2SF x = S754_infinity false).
    { unfold Fl.finite, Fl.num, Fl.R in *.
      destruct (Prim2SF x) as [| [] | |]; try discriminate; [| reflexivity].
      cbn [SF.Zv] in Hx. pose proof top_pos. lia. }
    assert (Hs : Prim2SF (PrimFloat.sub x a) = S754_infinity false).
    { rewrite sub_spec, Hxinf. unfold SF64sub, Fl.finite in *.
      now destruct (Prim2SF a) as [| | |]. }
    unfold Fl.num, Fl.R. rewrite Hs, Hxinf. cbn. lia.
Qed.

(** Equal finite positive numbers subtract to [+0]. *)
Lemma sub_equal (x a : float) :
  PrimFloat.ltb 0 a = true -> PrimFloat.ltb a infinity = true ->
  Fl.num x = true -> Fl.R x = Fl.R a ->
  PrimFloat.sub x a = 0%float.
Proof.
  intros Ha Hfin Nx Heq.
  apply ltb_iff in Ha as (_ & Na & Ha). rewrite R_zero in Ha.
  apply ltb_iff in Hfin as (_ & _ & Hfin). rewrite R_infinity in Hfin.
  apply Prim2SF_inj. rewrite sub_spec.
  change (Prim2SF 0) with (S754_zero false).
  pose proof (Prim2SF_valid x) as Vx. pose proof (Prim2SF_valid a) as Va.
  unfold Fl.num, Fl.R in *. pose proof top_pos.
  destruct (Prim2SF x) as [sx | [] | | sx mx ex]; try discriminate;
    destruct (Prim2SF a) as [sa | [] | | sa ma ea]; try discriminate;
    cbn [SF.Zv] in Ha, Hfin, Heq; try lia.
  now apply SFsub_equal.
Qed.

Section Properties.
Context `{JsHost}.

(** *** [parseTonValue] *)

Lemma parseTonValue_above (v : JsVal) :
  PrimFloat.ltb 1e12 (Js.ToNumber v) = true ->
  parseTonValue v = PrimFloat.div (Js.ToNumber v) 1e9.
Proof.
  intros Hgt. unfold parseTonValue.
  destruct (Js.nullish v) eqn:Hnull.
  - destruct v; try discriminate; cbn in Hgt; vm_compute in Hgt; discriminate.
  - destruct (PrimFloat.is_nan (Js.ToNumber v)) eqn:Hnan.
    + now rewrite (ltb_nan_r _ _ Hnan) in Hgt.
    + cbv zeta. now rewrite Hgt.
Qed.

Lemma parseTonValue_as_is (v : JsVal) :
  PrimFloat.ltb 1e12 (Js.ToNumber v) = false ->
  PrimFloat.is_nan (Js.ToNumber v) = false ->
  parseTonValue v = Js.ToNumber v.
Proof.
  intros Hle Hnan. unfold parseTonValue.
  destruct (Js.nullish v) eqn:Hnull.
  - destruct v; try discriminate; try reflexivity; now vm_compute in Hnan.
  - cbv zeta. now rewrite Hnan, Hle.
Qed.


(** C6: a raw chain value whose number is above 1e12 is divided by 1e9,
    any other number is taken as it is; the reported value 2000000000000
    becomes 2000 before it is compared with the cost. *)
Theorem parseTonValue_normalizes :
  (forall v : JsVal,
      (PrimFloat.ltb 1e12 (Js.ToNumber v) = true ->
       parseTonValue v = PrimFloat.div (Js.ToNumber v) 1e9)
      /\ (PrimFloat.ltb 1e12 (Js.ToNumber v) = false ->
          PrimFloat.is_nan (Js.ToNumber v) = false ->
          parseTonValue v = Js.ToNumber v))
  /\ parseTonValue (JNum 2000000000000) = 2000%float
  /\ (forall s : string,
        StringToNumber s = 2000000000000%float ->
        parseTonValue (JStr s) = 2000%float)
  /\ (forall (tx : JsVal) (rest : list (string * JsVal)),
        tx = JObj (("in_msg", JObj (("value", JNum 2000000000000) :: rest))
                   :: nil) ->
        tx_value tx = 2000%float
        /\ forall cost : float,
            amount_ok cost (tx_value tx)
            = PrimFloat.leb (PrimFloat.sub cost 0.0000001) 2000).
Proof.
  split; [| split; [| split]].
  - intros v. split; [apply parseTonValue_above | apply parseTonValue_as_is].
  - reflexivity.
  - intros s Hs. rewrite parseTonValue_above; cbn; rewrite Hs; reflexivity.
  - intros tx rest ->.
    assert (Hv : tx_value
                   (JObj (("in_msg", JObj (("value", JNum 2000000000000) :: rest))
                          :: nil)) = 2000%float) by reflexivity.
    split; [exact Hv |]. intros cost. unfold amount_ok. now rewrite Hv.
Qed.

(** *** Confirming a sale that is already confirmed *)

(** C3: confirming a sale whose status is [confirmed] answers
    [{ok: true, message: 'already_confirmed'}] and leaves the whole store
    (tokens, sales, balances, history) as it was; doing it again gives the
    same answer and the same store. *)
Theorem confirm_already_confirmed (env : Env) (st : Store) (saleId : string)
    (body : list (string * JsVal)) (sale : Sale.t) :
  sales st !! saleId = Some sale ->
  Sale.status sale = confirmed ->
  confirm env st saleId body = (st, json already_confirmed_body)
  /\ forall (env' : Env) (body' : list (string * JsVal)),
      confirm env' (fst (confirm env st saleId body)) saleId body'
      = confirm env st saleId body.
Proof.
  intros Hsale Hst.
  assert (Hc : forall e b, confirm e st saleId b = (st, json already_confirmed_body)).
  { intros e b. unfold confirm. now rewrite Hsale, Hst. }
  split; [apply Hc |]. intros env' body'. now rewrite !Hc.
Qed.

(** *** Transfers *)


(** *** The shape of [confirm] and of [finalize] *)

Lemma confirm_open (env : Env) (st : Store) (saleId : string)
    (body : list (string * JsVal)) (sale : Sale.t) :
  sales st !! saleId = Some sale ->
  Sale.status sale <> confirmed ->
  confirm env st saleId body
  = match direct_path env st saleId sale (Js.lookup_field "txHash" body) with
    | Some r => r
    | None => scan_path env st saleId sale
    end.
Proof.
  intros Hsale Hst. unfold confirm. rewrite Hsale.
  destruct (Sale.status sale); congruence.
Qed.

Lemma finalize_result (env : Env) (st : Store) (saleId : string)
    (sale : Sale.t) (hash : JsVal) :
  snd (finalize env st saleId sale hash) = sale_confirmed_body.
Proof. reflexivity. Qed.

Lemma finalize_sales (env : Env) (st : Store) (saleId : string)
    (sale : Sale.t) (hash : JsVal) :
  sales (fst (finalize env st saleId sale hash))
  = alter (Sale.update_confirmed (Js.or hash JNull) (date_now env)) saleId
          (sales st).
Proof.
  unfold finalize. cbn.
  destruct (tokens st !! Sale.tokenId sale); reflexivity.
Qed.



Lemma mark_pending_check_others (st : Store) (saleId : string) :
  tokens (mark_pending_check st saleId) = tokens st
  /\ balances (mark_pending_check st saleId) = balances st
  /\ history (mark_pending_check st saleId) = history st.
Proof. repeat split. Qed.

(** *** The direct-hash path *)




(** *** The scan *)




Lemma scan_path_available (env : Env) (st : Store) (saleId : string)
    (sale : Sale.t) (items : list JsVal) :
  recent_txs env sale = Some items ->
  scan_path env st saleId sale
  = match scan_loop (now_seconds env) (Sale.cost sale) (Sale.buyer sale)
                    items with
    | None => (st, server_error)
    | Some matched =>
        if negb (Js.truthy matched) then
          (mark_pending_check st saleId, json (not_ok_body "not_found"))
        else (fst (finalize env st saleId sale (found_hash matched)),
              json sale_confirmed_body)
    end.
Proof.
  unfold recent_txs, scan_path. cbv zeta.
  destruct (txs_unavailable _); [discriminate |].
  intros ->. destruct (scan_loop _ _ _ _) as [matched |]; [| reflexivity].
  now destruct (negb (Js.truthy matched)).
Qed.











Lemma older_than_24h_number (now t : float) (tx : JsVal) :
  utime_of tx = JNum t ->
  older_than_24h now tx
  = Js.truthy (JNum t) && PrimFloat.ltb 86400 (PrimFloat.sub now t).
Proof. intros Hu. unfold older_than_24h. now rewrite Hu. Qed.


(** *** Values that are not numbers *)





(** *** The supply of a listing token *)

Lemma max_zero (d : float) :
  Fl.num d = true ->
  Js.max 0 d = if PrimFloat.ltb 0 d then d else 0%float.
Proof.
  intros Hn. unfold Js.max. rewrite (is_nan_num d), Hn.
  change (PrimFloat.is_nan 0) with false.
  change (PrimFloat.get_sign 0) with false. cbn [negb orb].
  destruct (PrimFloat.ltb 0 d); [reflexivity |].
  now destruct (PrimFloat.ltb d 0).
Qed.

Lemma num_or_zero (r : float) :
  PrimFloat.leb 0 r = true ->
  Fl.num (Js.num_or r 0) = true
  /\ Fl.R (Js.num_or r 0) = Fl.R r
  /\ (0 < Fl.R r -> Js.num_or r 0 = r).
Proof.
  intros Hr. apply leb_iff in Hr as (_ & Nr & Hr).
  unfold Js.num_or. rewrite is_nan_num, Nr, is_zero_SF. cbn [negb orb].
  unfold Fl.R, Fl.num in *.
  destruct (Prim2SF r) as [s | s | | s m e] eqn:Hsf; try discriminate;
    rewrite ?Hsf; repeat split; auto.
  cbn [SF.Zv]. lia.
Qed.

(** One confirmed purchase of a positive finite amount [a] out of a
    non-negative remaining supply [r]. *)
Lemma remaining_step (r a : float) :
  PrimFloat.leb 0 r = true ->
  amount_positive a ->
  let r' := Js.max 0 (PrimFloat.sub (Js.num_or r 0) a) in
  PrimFloat.leb 0 r' = true
  /\ PrimFloat.leb r' r = true
  /\ (PrimFloat.leb a r = true -> r' = PrimFloat.sub r a)
  /\ (PrimFloat.ltb r a = true -> r' = 0%float).
Proof.
  intros Hr [Ha Hfin]. cbv zeta.
  destruct (num_or_zero r Hr) as (N0 & R0 & Hsame).
  set (r0 := Js.num_or r 0) in *.
  assert (Hr0 : PrimFloat.leb 0 r0 = true).
  { apply leb_iff in Hr as (_ & _ & Hr). apply leb_iff. rewrite R0. auto. }
  pose proof (sub_le_self r0 a Hr0 Ha Hfin) as Hd.
  apply leb_iff in Hd as (Nd & _ & Hd). rewrite R0 in Hd.
  apply leb_iff in Hr as (_ & Nr & Hr). rewrite R_zero in Hr.
  pose proof Ha as Ha'. apply ltb_iff in Ha' as (_ & Na & Hapos).
  rewrite R_zero in Hapos.
  rewrite (max_zero _ Nd). set (d := PrimFloat.sub r0 a) in *.
  split; [| split; [| split]].
  - destruct (PrimFloat.ltb 0 d) eqn:Hlt; [| reflexivity].
    apply ltb_iff in Hlt as (_ & _ & Hlt). apply leb_iff. auto with zarith.
  - destruct (PrimFloat.ltb 0 d) eqn:Hlt; apply leb_iff; rewrite ?R_zero; auto.
  - intros Hle. apply leb_iff in Hle as (_ & _ & Hle).
    assert (Hrr : r0 = r) by (apply Hsame; lia). subst d. rewrite Hrr in *.
    destruct (Z.eq_dec (Fl.R r) (Fl.R a)) as [Heq | Hne].
    + now rewrite (sub_equal r a Ha Hfin Nr Heq).
    + assert (Hlt : PrimFloat.ltb a r = true) by (apply ltb_iff; auto with zarith).
      now rewrite (sub_pos r a Hlt).
  - intros Hlt. apply ltb_iff in Hlt as (_ & _ & Hlt).
    assert (Hlt0 : PrimFloat.ltb r0 a = true)
      by (apply ltb_iff; rewrite R0; auto).
    apply sub_neg in Hlt0. apply ltb_iff in Hlt0 as (_ & _ & Hneg).
    rewrite R_zero in Hneg.
    destruct (PrimFloat.ltb 0 d) eqn:Hpos; [| reflexivity].
    apply ltb_iff in Hpos as (_ & _ & Hpos). rewrite R_zero in Hpos.
    subst d. lia.
Qed.

Lemma finalize_token_listing (tok : Token.t) (a : float) :
  is_listing (Token.type tok) = true ->
  finalize_token tok a
  = Token.update_listing tok
      (Js.max 0 (PrimFloat.sub (Js.field_or (Token.remainingSupply tok) 0) a)).
Proof. intros Hl. unfold finalize_token. now rewrite Hl. Qed.

Lemma leb_trans (x y z : float) :
  PrimFloat.leb x y = true -> PrimFloat.leb y z = true ->
  PrimFloat.leb x z = true.
Proof.
  intros Hxy Hyz. apply leb_iff in Hxy as (Nx & _ & Hxy).
  apply leb_iff in Hyz as (_ & Nz & Hyz). apply leb_iff. auto with zarith.
Qed.

Lemma purchases_listing (T : float) (amounts : list float) :
  forall (tok : Token.t) (r : float),
    is_listing (Token.type tok) = true ->
    Token.totalSupply tok = Some T ->
    Token.remainingSupply tok = Some r ->
    PrimFloat.leb 0 r = true ->
    Forall amount_positive amounts ->
    exists r' : float,
      Token.remainingSupply (purchases tok amounts) = Some r'
      /\ Token.totalSupply (purchases tok amounts) = Some T
      /\ is_listing (Token.type (purchases tok amounts)) = true
      /\ PrimFloat.leb 0 r' = true
      /\ PrimFloat.leb r' r = true
      /\ (never_oversold r amounts -> r' = fold_left PrimFloat.sub amounts r).
Proof.
  induction amounts as [| a rest IH]; intros tok r Hl HT Hrem Hr Hpos.
  - exists r. cbn. repeat split; auto.
    apply leb_iff in Hr as (_ & Nr & _). apply leb_iff. auto with zarith.
  - inversion Hpos as [| ? ? Ha Hrest]; subst.
    destruct (remaining_step r a Hr Ha) as (H0 & Hle & Hexact & _).
    cbn [purchases fold_left]. fold (purchases (finalize_token tok a) rest).
    rewrite (finalize_token_listing tok a Hl), Hrem. cbn [Js.field_or].
    set (r1 := Js.max 0 _) in *.
    destruct (IH (Token.update_listing tok r1) r1 Hl HT eq_refl H0 Hrest)
      as (r' & Hrem' & HT' & Hl' & H0' & Hle' & Hex').
    exists r'. repeat split; auto.
    + now apply leb_trans with r1.
    + cbn [never_oversold fold_left]. intros [Hok Hrest'].
      rewrite <- (Hexact Hok). apply Hex'. now rewrite (Hexact Hok).
Qed.

Lemma finalize_tokens (env : Env) (st : Store) (saleId : string)
    (sale : Sale.t) (hash : JsVal) (tok : Token.t) :
  tokens st !! Sale.tokenId sale = Some tok ->
  tokens (fst (finalize env st saleId sale hash))
  = <[Sale.tokenId sale := finalize_token tok (Sale.amountTokens sale)]>
      (tokens st).
Proof. intros Htok. unfold finalize. cbn. now rewrite Htok. Qed.

(** C4, as the code has it: a listing token is created with
    [remainingSupply = totalSupply]; every confirmed purchase of a positive
    finite amount [a] replaces [remainingSupply] by
    [max(0, remainingSupply - a)]. So, for a non-negative [totalSupply],
    [remainingSupply] is never negative, never increases and never exceeds
    [totalSupply]; it equals [totalSupply - a1 - ... - aN] as long as no
    purchase asks for more than what remains, and is 0 after a purchase
    that does. *)
Theorem listing_supply_floor (env : Env) (body : list (string * JsVal))
    (tok0 : Token.t) (amounts : list float) :
  create_token env body = Some tok0 ->
  is_listing (Token.type tok0) = true ->
  PrimFloat.leb 0 (Js.ToNumber (Js.lookup_field "totalSupply" body)) = true ->
  Forall amount_positive amounts ->
  let T := Js.ToNumber (Js.lookup_field "totalSupply" body) in
  Token.totalSupply tok0 = Some T
  /\ Token.remainingSupply tok0 = Some T
  /\ exists r : float,
      Token.remainingSupply (purchases tok0 amounts) = Some r
      /\ Token.totalSupply (purchases tok0 amounts) = Some T
      /\ PrimFloat.leb 0 r = true
      /\ PrimFloat.leb r T = true
      /\ (never_oversold T amounts -> r = fold_left PrimFloat.sub amounts T)
      /\ forall a : float,
          amount_positive a ->
          exists r' : float,
            Token.remainingSupply (finalize_token (purchases tok0 amounts) a)
            = Some r'
            /\ Token.totalSupply (finalize_token (purchases tok0 amounts) a)
               = Some T
            /\ r' = Js.max 0 (PrimFloat.sub (Js.num_or r 0) a)
            /\ PrimFloat.leb 0 r' = true
            /\ PrimFloat.leb r' r = true
            /\ PrimFloat.leb r' T = true
            /\ (PrimFloat.leb a r = true -> r' = PrimFloat.sub r a)
            /\ (PrimFloat.ltb r a = true -> r' = 0%float).
Proof.
  intros Hcreate Hl HT Hpos. cbv zeta.
  set (T := Js.ToNumber (Js.lookup_field "totalSupply" body)) in *.
  assert (Hfields : Token.totalSupply tok0 = Some T
                    /\ Token.remainingSupply tok0 = Some T).
  { unfold create_token in Hcreate.
    destruct (is_listing (Js.lookup_field "type" body)) eqn:Hty.
    - destruct (_ || _); [discriminate |]. now injection Hcreate as <-.
    - injection Hcreate as <-. cbn in Hl. congruence. }
  destruct Hfields as [Htot Hrem]. split; [exact Htot |]. split; [exact Hrem |].
  destruct (purchases_listing T amounts tok0 T Hl Htot Hrem HT Hpos)
    as (r & Hr & HrT & Hl' & H0 & Hle & Hex).
  exists r. repeat split; auto.
  intros a Ha.
  destruct (remaining_step r a H0 Ha) as (H0' & Hle' & Hexact & Hfloor).
  exists (Js.max 0 (PrimFloat.sub (Js.num_or r 0) a)).
  rewrite (finalize_token_listing _ a Hl'), Hr. cbn [Js.field_or].
  repeat split; auto.
  now apply leb_trans with r.
Qed.

(** *** The amounts of the sales that can be confirmed *)

Lemma sub_num_l (x y : float) :
  Fl.num (PrimFloat.sub x y) = true -> Fl.num x = true.
Proof.
  unfold Fl.num. rewrite sub_spec. now destruct (Prim2SF x).
Qed.

Lemma mul_num_l (x y : float) :
  Fl.num (PrimFloat.mul x y) = true -> Fl.num x = true.
Proof.
  unfold Fl.num. rewrite mul_spec. now destruct (Prim2SF x).
Qed.

Lemma toFixed9_num (x : float) :
  Fl.num (Num.toFixed9 x) = true -> Fl.num x = true.
Proof.
  unfold Fl.num, Num.toFixed9.
  destruct (Prim2SF x) eqn:Hx; try reflexivity.
  destruct (PrimFloat.leb 1e21 (PrimFloat.abs x)); now rewrite Hx.
Qed.

Lemma amount_ok_num (cost val : float) :
  amount_ok cost val = true -> Fl.num cost = true.
Proof.
  unfold amount_ok. intros Hok. apply leb_iff in Hok as (Hn & _).
  now apply sub_num_l in Hn.
Qed.

(** A sale quoted by [buy] on a listing token with a finite supply, if it
    can ever pass the amount test of [confirm], carries a positive finite
    amount. *)
Lemma buy_listing_amount (env : Env) (st : Store) (tokenId : string)
    (body : list (string * JsVal)) (tok : Token.t) (r val : float) :
  tokens st !! tokenId = Some tok ->
  is_listing (Token.type tok) = true ->
  Token.remainingSupply tok = Some r ->
  PrimFloat.leb 0 r = true -> PrimFloat.ltb r infinity = true ->
  status (snd (buy env st tokenId body)) = 200%nat ->
  exists sale : Sale.t,
    sales (fst (buy env st tokenId body)) !! uid env 0 = Some sale
    /\ Sale.status sale = pending
    /\ Sale.tokenId sale = tokenId
    /\ PrimFloat.ltb r (Sale.amountTokens sale) = false
    /\ (amount_ok (Sale.cost sale) val = true ->
        amount_positive (Sale.amountTokens sale)).
Proof.
  intros Htok Hl Hrem Hr Hfin. unfold buy. rewrite Htok, Hl, Hrem.
  cbn [Js.field_or].
  destruct (_ || _); [discriminate |].
  set (a := Js.ToNumber (Js.lookup_field "amountTokens" body)).
  destruct (PrimFloat.leb a 0) eqn:Hle; [discriminate |].
  destruct (PrimFloat.ltb (Js.num_or r 0) a) eqn:Hlt; [discriminate |].
  intros _. cbn [fst sales with_sales with_history].
  eexists. rewrite lookup_insert_eq. split; [reflexivity |].
  cbn [Sale.status Sale.tokenId Sale.amountTokens Sale.cost].
  destruct (num_or_zero r Hr) as (N0 & R0 & _).
  apply ltb_iff in Hfin as (Nr & _ & Hfin). rewrite R_infinity in Hfin.
  assert (Hbound : Fl.num a = true -> 0 < Fl.R a <= Fl.R r).
  { intros Na. split.
    - destruct (Z.lt_ge_cases 0 (Fl.R a)) as [| Hneg]; [assumption |].
      assert (PrimFloat.leb a 0 = true)
        by (apply leb_iff; rewrite R_zero; auto with zarith).
      congruence.
    - destruct (Z.le_gt_cases (Fl.R a) (Fl.R r)) as [| Hgt]; [assumption |].
      assert (PrimFloat.ltb (Js.num_or r 0) a = true)
        by (apply ltb_iff; rewrite R0; auto with zarith).
      congruence. }
  split; [reflexivity |]. split; [reflexivity |]. split.
  - destruct (PrimFloat.ltb r a) eqn:Hra; [| reflexivity].
    apply ltb_iff in Hra as (_ & Na & Hra). specialize (Hbound Na). lia.
  - intros Hok. apply amount_ok_num, toFixed9_num, mul_num_l in Hok.
    specialize (Hbound Hok). split; apply ltb_iff;
      rewrite ?R_zero, ?R_infinity; repeat split; auto; lia.
Qed.

(** A reply that is available but malformed (here an array holding
    [null]) makes the scan throw: the handler answers 500 and writes
    nothing. *)
Lemma scan_path_malformed (env : Env) (st : Store) (saleId : string)
    (sale : Sale.t) (items : list JsVal) :
  recent_txs env sale = Some (JNull :: items) ->
  scan_path env st saleId sale = (st, server_error).
Proof.
  intros Hitems. now rewrite (scan_path_available env st saleId sale _ Hitems).
Qed.

(** *** The price of a user token *)

Lemma num_or_truthy (n d : float) :
  Js.truthy (JNum n) = true -> Js.num_or n d = n.
Proof.
  cbn [Js.truthy]. unfold Js.num_or.
  now destruct (PrimFloat.is_nan n || PrimFloat.is_zero n).
Qed.

Lemma num_or_falsy (n d : float) :
  Js.truthy (JNum n) = false -> Js.num_or n d = d.
Proof.
  cbn [Js.truthy]. unfold Js.num_or.
  now destruct (PrimFloat.is_nan n || PrimFloat.is_zero n).
Qed.

Lemma num_or_zero_add (s a : float) :
  PrimFloat.is_nan s = false -> s <> PrimFloat.neg_zero ->
  PrimFloat.add (Js.num_or s 0) a = PrimFloat.add s a.
Proof.
  intros Hn Hz. unfold Js.num_or. rewrite Hn. cbn [orb].
  destruct (PrimFloat.is_zero s) eqn:Hzero; [| reflexivity].
  rewrite is_zero_SF in Hzero.
  destruct (Prim2SF s) as [[|] | | |] eqn:Hsf; try discriminate.
  - destruct Hz. now apply Prim2SF_inj.
  - f_equal. now apply Prim2SF_inj.
Qed.

(** C5, as the code has it: a confirmed purchase of [a] units of a user
    token adds [a] to [supplyIssued] (a missing, zero or NaN counter counts
    as 0) and sets [dynamicPrice] to [p * (1 + 0.005 * a)] rounded to 9
    decimals, where [p] is the old [dynamicPrice], or 0.1 when the old
    price is missing, zero or NaN. *)
Theorem user_token_purchase (tok : Token.t) (a : float) :
  is_listing (Token.type tok) = false ->
  Token.supplyIssued (finalize_token tok a)
  = Some (PrimFloat.add (Js.field_or (Token.supplyIssued tok) 0) a)
  /\ Token.dynamicPrice (finalize_token tok a)
     = Some (Num.toFixed9
               (PrimFloat.mul (Js.field_or (Token.dynamicPrice tok) 0.1)
                  (PrimFloat.add 1 (PrimFloat.mul 0.005 a))))
  /\ (forall s : float,
        Token.supplyIssued tok = Some s ->
        PrimFloat.is_nan s = false -> s <> PrimFloat.neg_zero ->
        Token.supplyIssued (finalize_token tok a) = Some (PrimFloat.add s a))
  /\ (forall p : float,
        Token.dynamicPrice tok = Some p ->
        Js.truthy (JNum p) = true ->
        Token.dynamicPrice (finalize_token tok a)
        = Some (Num.toFixed9
                  (PrimFloat.mul p (PrimFloat.add 1 (PrimFloat.mul 0.005 a)))))
  /\ (forall p : float,
        Token.dynamicPrice tok = None
        \/ (Token.dynamicPrice tok = Some p /\ Js.truthy (JNum p) = false) ->
        Token.dynamicPrice (finalize_token tok a)
        = Some (Num.toFixed9
                  (PrimFloat.mul 0.1
                     (PrimFloat.add 1 (PrimFloat.mul 0.005 a)))))
  /\ (forall (env : Env) (st : Store) (saleId : string) (sale : Sale.t)
             (hash : JsVal),
        tokens st !! Sale.tokenId sale = Some tok ->
        Sale.amountTokens sale = a ->
        tokens (fst (finalize env st saleId sale hash)) !! Sale.tokenId sale
        = Some (finalize_token tok a)).
Proof.
  intros Hl. unfold finalize_token. rewrite Hl. cbn [Token.update_user
    Token.supplyIssued Token.dynamicPrice].
  split; [reflexivity |]. split; [reflexivity |].
  split; [| split; [| split]].
  - intros s -> Hn Hz. cbn [Js.field_or]. now rewrite num_or_zero_add.
  - intros p -> Hp. cbn [Js.field_or]. now rewrite num_or_truthy.
  - intros p [-> | [-> Hp]]; cbn [Js.field_or]; [reflexivity |].
    now rewrite num_or_falsy.
  - intros env st saleId sale hash Htok <-.
    rewrite (finalize_tokens env st saleId sale hash tok Htok).
    rewrite lookup_insert_eq. unfold finalize_token. now rewrite Hl.
Qed.

End Properties.

(** * Examples

    The theorems above at the concrete host, store and explorer replies of
    [Demo], and the inputs on which the code departs from the
    specification. *)

Section Examples.
#[local] Existing Instance Demo.host.

(** Two floats that differ. *)
Ltac float_neq :=
  let Heq := fresh in
  intros Heq;
  apply (f_equal (fun o : option float =>
                    match o with
                    | Some x => Prim2SF x
                    | None => S754_nan
                    end)) in Heq;
  vm_compute in Heq; discriminate.

Lemma confirm_already_confirmed_witness :
  sales Demo.store !! "s2" = Some (Demo.sale "s2" "gold" 1 2.5 confirmed)
  /\ confirm (Demo.env 0 None None) Demo.store "s2" []
     = (Demo.store, json already_confirmed_body).
Proof.
  assert (Hs : sales Demo.store !! "s2"
               = Some (Demo.sale "s2" "gold" 1 2.5 confirmed))
    by (vm_compute; reflexivity).
  split; [exact Hs |].
  exact (proj1 (confirm_already_confirmed (Demo.env 0 None None) Demo.store
                  "s2" [] _ Hs eq_refl)).
Defined.









Lemma listing_supply_floor_witness :
  let body := Demo.listing_body 10 in
  let env := Demo.env 0 None None in
  exists tok0 : Token.t,
    create_token env body = Some tok0
    /\ Forall amount_positive [6%float; 6%float]
    /\ exists r : float,
        Token.remainingSupply (purchases tok0 [6%float; 6%float]) = Some r
        /\ PrimFloat.leb 0 r = true /\ PrimFloat.leb r 10 = true.
Proof.
  cbv zeta. eexists. split; [reflexivity |].
  assert (Hpos : Forall amount_positive [6%float; 6%float])
    by (repeat constructor).
  split; [exact Hpos |].
  destruct (listing_supply_floor (Demo.env 0 None None)
              (Demo.listing_body 10) _ [6%float; 6%float]
              eq_refl eq_refl eq_refl Hpos)
    as (_ & _ & r & Hr & _ & H0 & HT & _).
  exists r. auto.
Defined.

(** C4 as stated fails: two purchases of 6 units, both quoted while 10
    units remain and both confirmed, leave [remainingSupply] at 0, which is
    not [totalSupply - A = 10 - 12]. (And a token created with a negative
    [totalSupply] starts with a negative [remainingSupply].) *)
Lemma oversold_listing_floors_at_zero :
  sale_status Demo.oversold "id_0" = Some confirmed
  /\ sale_status Demo.oversold "id_2" = Some confirmed
  /\ Sale.amountTokens <$> sales Demo.oversold !! "id_0" = Some 6%float
  /\ Sale.amountTokens <$> sales Demo.oversold !! "id_2" = Some 6%float
  /\ Token.totalSupply <$> tokens Demo.oversold !! "gold" = Some (Some 10%float)
  /\ Token.remainingSupply <$> tokens Demo.oversold !! "gold"
     = Some (Some 0%float)
  /\ PrimFloat.sub 10 (PrimFloat.add 6 6) = (-2)%float
  /\ Some 0%float <> Some (PrimFloat.sub 10 (PrimFloat.add 6 6))
  /\ Token.remainingSupply
       <$> create_token (Demo.env 0 None None) (Demo.listing_body (-5))
     = Some (Some (-5)%float)
  /\ PrimFloat.ltb (-5) 0 = true.
Proof.
  repeat split; try (vm_compute; reflexivity). float_neq.
Qed.

Lemma user_token_purchase_witness :
  let tok := Demo.user_token 0.1 in
  is_listing (Token.type tok) = false
  /\ Token.supplyIssued (finalize_token tok 2) = Some 2%float
  /\ Token.dynamicPrice (finalize_token tok 2)
     = Some (Num.toFixed9 (0.1 * (1 + 0.005 * 2))%float)
  /\ Num.toFixed9 (0.1 * (1 + 0.005 * 2))%float = 0.101%float.
Proof.
  cbv zeta.
  destruct (user_token_purchase (Demo.user_token 0.1) 2 eq_refl)
    as (_ & _ & Hissued & Hprice & _).
  split; [reflexivity |]. split; [| split; [| reflexivity]].
  - rewrite (Hissued 0%float eq_refl eq_refl); [reflexivity |].
    intros Heq. apply (f_equal Prim2SF) in Heq. vm_compute in Heq.
    discriminate.
  - exact (Hprice 0.1%float eq_refl eq_refl).
Defined.

(** C5 as stated fails: a user token created at the price 1e-10 has the
    price 0 after a first confirmed purchase (1.005e-10 rounds to 0); the
    next confirmed purchase of one unit prices it from 0.1, so the new
    price is 0.1005 and not [round(0 * 1.005, 9) = 0]. *)
Lemma user_price_zero_default :
  Token.dynamicPrice <$> tokens Demo.cheap !! "id_0" = Some (Some 0%float)
  /\ sale_status Demo.repriced "id_6" = Some confirmed
  /\ Sale.tokenId <$> sales Demo.repriced !! "id_6" = Some "id_0"
  /\ Sale.amountTokens <$> sales Demo.repriced !! "id_6" = Some 1%float
  /\ Token.dynamicPrice <$> tokens Demo.repriced !! "id_0"
     = Some (Some 0.1005%float)
  /\ Num.toFixed9 (0 * (1 + 0.005 * 1))%float = 0%float
  /\ Some 0.1005%float <> Some (Num.toFixed9 (0 * (1 + 0.005 * 1))%float).
Proof.
  repeat split; try (vm_compute; reflexivity). float_neq.
Qed.

(** The explorer reports values as decimal strings of nanotons. *)
Example parseTonValue_string :
  parseTonValue (JStr "2000000000000") = 2000%float
  /\ parseTonValue (JStr "1500000000") = 1500000000%float
  /\ parseTonValue (JStr "12 TON") = 0%float
  /\ parseTonValue (JObj []) = 0%float.
Proof. repeat split. Qed.

End Examples.

(** * Further properties of the server

    What the handlers do beyond the behaviour stated so far: the helper
    functions, the error answers, the effects of each accepted request on
    the four collections, and what holds after any sequence of requests. *)

(** ** More facts about binary64 arithmetic *)

(** *** Addition *)

Lemma SFadd_finite_normalize (sx sy : bool) (mx my : positive) (ex ey : Z) :
  valid_binary (S754_finite sx mx ex) = true ->
  valid_binary (S754_finite sy my ey) = true ->
  exists M ez : Z,
    -1074 <= ez
    /\ SF64add (S754_finite sx mx ex) (S754_finite sy my ey)
       = binary_normalize prec emax M ez false
    /\ SF.Zv (S754_finite sx mx ex) + SF.Zv (S754_finite sy my ey)
       = M * 2 ^ (ez + 1074).
Proof.
  intros Hx Hy.
  pose proof (valid_finite_bounds _ _ _ Hx) as (Hex & _).
  pose proof (valid_finite_bounds _ _ _ Hy) as (Hey & _).
  unfold SF64add. cbn [SFadd]. set (ez := Z.min ex ey).
  destruct (shl_align_spec mx ex ez ltac:(lia)) as (mx' & -> & Hmx' & _).
  destruct (shl_align_spec my ey ez ltac:(lia)) as (my' & -> & Hmy' & _).
  cbn [fst]. rewrite !cond_Zopp_mul, Hmx', Hmy'.
  eexists _, ez. split; [lia |]. split; [reflexivity |].
  cbn [SF.Zv].
  rewrite (pow2_split (ez + 1074) (ex + 1074)) by lia.
  rewrite (pow2_split (ez + 1074) (ey + 1074)) by lia.
  replace (ex + 1074 - (ez + 1074)) with (ex - ez) by lia.
  replace (ey + 1074 - (ez + 1074)) with (ey - ez) by lia. ring.
Qed.

Lemma normalize_rounds (M ez : Z) :
  -1074 <= ez ->
  sub_rounds (M * 2 ^ (ez + 1074)) (binary_normalize prec emax M ez false).
Proof.
  intros Hez. pose proof (pow2_pos (ez + 1074) ltac:(lia)) as Hu.
  unfold sub_rounds. destruct M as [| p | p]; cbn [binary_normalize].
  - rewrite Z.mul_0_l. cbn. eauto.
  - replace (Z.pos p * 2 ^ (ez + 1074) ?= 0) with Gt
      by (symmetry; apply Z.compare_gt_iff; lia).
    apply binary_round_pos. lia.
  - replace (Z.neg p * 2 ^ (ez + 1074) ?= 0) with Lt
      by (symmetry; apply Z.compare_lt_iff; lia).
    rewrite binary_round_sign, SFopp_involutive.
    replace (- (Z.neg p * 2 ^ (ez + 1074))) with (Z.pos p * 2 ^ (ez + 1074))
      by lia.
    apply binary_round_pos. lia.
Qed.

Lemma SFadd_rounds (x y : spec_float) :
  valid_binary x = true -> valid_binary y = true ->
  SF.fin x = true -> SF.fin y = true ->
  sub_rounds (SF.Zv x + SF.Zv y) (SF64add x y).
Proof.
  intros Hx Hy Fx Fy.
  destruct x as [sx | | | sx mx ex]; try discriminate;
    destruct y as [sy | | | sy my ey]; try discriminate.
  - unfold sub_rounds. cbn [SF.Zv]. change (0 + 0 ?= 0) with Eq.
    destruct sx, sy; cbn; eauto.
  - change (SF64add (S754_zero sx) (S754_finite sy my ey))
      with (S754_finite sy my ey).
    replace (SF.Zv (S754_zero sx) + SF.Zv (S754_finite sy my ey))
      with (SF.Zv (S754_finite sy my ey)) by (cbn [SF.Zv]; lia).
    now apply sub_rounds_finite.
  - change (SF64add (S754_finite sx mx ex) (S754_zero sy))
      with (S754_finite sx mx ex).
    replace (SF.Zv (S754_finite sx mx ex) + SF.Zv (S754_zero sy))
      with (SF.Zv (S754_finite sx mx ex)) by (cbn [SF.Zv]; lia).
    now apply sub_rounds_finite.
  - destruct (SFadd_finite_normalize sx sy mx my ex ey Hx Hy)
      as (M & ez & Hez & -> & ->).
    now apply normalize_rounds.
Qed.

Lemma finite_sum_below_top (x y : float) :
  Fl.finite x = true -> Fl.finite y = true ->
  - SF.top < Fl.R x + Fl.R y < SF.top /\ - SF.top < Fl.R x - Fl.R y < SF.top.
Proof.
  intros Fx Fy. unfold Fl.R, Fl.finite in *.
  assert (Hb : forall v, valid_binary v = true -> SF.fin v = true ->
                         - (2 ^ 53 * 2 ^ (971 + 1074)) < SF.Zv v
                         < 2 ^ 53 * 2 ^ (971 + 1074)).
  { intros v Hv Fv. destruct v as [s | s | | s m e]; try discriminate;
      cbn [SF.Zv].
    - assert (0 < 2 ^ 53 * 2 ^ (971 + 1074))
        by (apply Z.mul_pos_pos; apply pow2_pos; lia).
      lia.
    - pose proof (finite_below_overflow _ _ _ Hv).
      pose proof (valid_finite_bounds _ _ _ Hv) as (He & _).
      pose proof (Zv_pos m e ltac:(lia)). destruct s; lia. }
  pose proof (Hb _ (Prim2SF_valid x) Fx). pose proof (Hb _ (Prim2SF_valid y) Fy).
  assert (2 * (2 ^ 53 * 2 ^ (971 + 1074)) <= SF.top).
  { unfold SF.top. rewrite <- Z.pow_add_r by lia.
    change 2 with (2 ^ 1) at 1. rewrite <- Z.pow_add_r by lia.
    apply Z.pow_le_mono_r; lia. }
  lia.
Qed.

Lemma add_finite (x y : float) :
  Fl.finite x = true -> Fl.finite y = true ->
  Fl.num (PrimFloat.add x y) = true
  /\ (forall z : float, Fl.num z = true ->
        Fl.R z <= Fl.R x + Fl.R y -> Fl.R z <= Fl.R (PrimFloat.add x y))
  /\ (forall z : float, Fl.num z = true ->
        Fl.R x + Fl.R y <= Fl.R z -> Fl.R (PrimFloat.add x y) <= Fl.R z).
Proof.
  intros Fx Fy.
  pose proof (SFadd_rounds _ _ (Prim2SF_valid x) (Prim2SF_valid y) Fx Fy) as Hr.
  rewrite <- add_spec in Hr.
  destruct (finite_sum_below_top x y Fx Fy) as [HV _].
  destruct (sub_rounds_order _ _ Hr (Prim2SF_valid _) HV)
    as (Hn & _ & Hlo & Hup).
  unfold Fl.R in *. split; [exact Hn |]. split.
  - intros z Nz. apply Hlo; [apply Prim2SF_valid | exact Nz].
  - intros z Nz. apply Hup; [apply Prim2SF_valid | exact Nz].
Qed.

(** Adding a non-negative number to a non-negative number gives a number
    that is at least each of them. *)
Lemma add_nonneg (x a : float) :
  PrimFloat.leb 0 x = true -> PrimFloat.leb 0 a = true ->
  PrimFloat.leb x (PrimFloat.add x a) = true
  /\ PrimFloat.leb a (PrimFloat.add x a) = true.
Proof.
  intros Hx Ha.
  apply leb_iff in Hx as (_ & Nx & Hx). rewrite R_zero in Hx.
  apply leb_iff in Ha as (_ & Na & Ha). rewrite R_zero in Ha.
  destruct (Fl.finite x && Fl.finite a) eqn:Hf.
  - apply andb_true_iff in Hf as [Fx Fa].
    destruct (add_finite x a Fx Fa) as (Hn & Hlo & _).
    split; apply leb_iff; repeat split; auto; apply Hlo; auto; lia.
  - assert (Hs : Prim2SF (PrimFloat.add x a) = S754_infinity false).
    { rewrite add_spec. unfold SF64add, Fl.finite, Fl.num, Fl.R in *.
      pose proof top_pos.
      destruct (Prim2SF x) as [| [] | |]; try discriminate;
        destruct (Prim2SF a) as [| [] | |]; try discriminate;
        cbn [SF.Zv SF.fin andb] in *; try discriminate; try lia;
        reflexivity. }
    pose proof (finite_lt_top _ (Prim2SF_valid x)) as Bx.
    pose proof (finite_lt_top _ (Prim2SF_valid a)) as Ba.
    pose proof top_pos.
    split; apply leb_iff; unfold Fl.num, Fl.R, Fl.finite in *; rewrite Hs;
      cbn [SF.Zv SF.not_nan]; repeat split; auto.
    + destruct (Prim2SF x) as [| [] | |]; try discriminate; cbn [SF.Zv] in *;
        try lia; specialize (Bx eq_refl); cbn [SF.Zv] in Bx; lia.
    + destruct (Prim2SF a) as [| [] | |]; try discriminate; cbn [SF.Zv] in *;
        try lia; specialize (Ba eq_refl); cbn [SF.Zv] in Ba; lia.
Qed.

(** *** Division *)





(** *** NaN operands and differences that stay non-negative *)






Lemma leb_false_gt (x y : float) :
  Fl.num x = true -> Fl.num y = true ->
  PrimFloat.leb x y = false -> Fl.R y < Fl.R x.
Proof.
  intros Nx Ny Hle.
  destruct (Z.lt_ge_cases (Fl.R y) (Fl.R x)) as [Hlt | Hge]; [exact Hlt |].
  assert (Ht : PrimFloat.leb x y = true) by (apply leb_iff; auto).
  congruence.
Qed.

Lemma ltb_false_ge (x y : float) :
  Fl.num x = true -> Fl.num y = true ->
  PrimFloat.ltb x y = false -> Fl.R y <= Fl.R x.
Proof.
  intros Nx Ny Hlt.
  destruct (Z.lt_ge_cases (Fl.R x) (Fl.R y)) as [Hl | Hge]; [| exact Hge].
  assert (Ht : PrimFloat.ltb x y = true) by (apply ltb_iff; auto).
  congruence.
Qed.

(** [x - a] is not negative when the finite [a] does not exceed [x]. *)
Lemma sub_nonneg (x a : float) :
  Fl.num x = true -> Fl.finite a = true -> Fl.R a <= Fl.R x ->
  PrimFloat.leb 0 (PrimFloat.sub x a) = true.
Proof.
  intros Nx Fa Hle.
  pose proof (proj1 (finite_iff a) Fa) as (Na & Ha).
  destruct (Fl.finite x) eqn:Fx.
  - destruct (sub_finite x a Fx Fa) as (Ns & _ & Hlow & _).
    apply leb_iff. split; [exact num_zero |]. split; [exact Ns |].
    apply Hlow; [exact num_zero |]. rewrite R_zero. lia.
  - assert (Hinf : Fl.R a < Fl.R x).
    { destruct (Z.lt_ge_cases (Fl.R a) (Fl.R x)) as [Hl | Hg]; [exact Hl |].
      assert (Fl.finite x = true); [| congruence].
      unfold Fl.finite, Fl.R, Fl.num in *.
      pose proof top_pos.
      destruct (Prim2SF x) as [| [] | |]; cbn in *; try reflexivity;
        try discriminate; lia. }
    destruct (sub_infinite x a Nx Na) as (Hp & _).
    { now rewrite Fx. }
    specialize (Hp Hinf). apply leb_iff.
    split; [exact num_zero |]. unfold Fl.num, Fl.R. rewrite Hp. cbn.
    split; [reflexivity |]. change (SF.Zv (Prim2SF 0)) with 0.
    pose proof top_pos. lia.
Qed.

(** ** The handlers *)

Section Behaviour.
Context `{JsHost}.

(** *** Normalized addresses *)


Lemma alnum_lower (c : ascii) : is_alnum (lower c) = is_alnum c.
Proof. now destruct c as [[] [] [] [] [] [] [] []]. Qed.

Lemma lower_lower (c : ascii) : lower (lower c) = lower c.
Proof. now destruct c as [[] [] [] [] [] [] [] []]. Qed.

Lemma strip_lower_app (s t : string) :
  strip_lower (String.append s t)
  = String.append (strip_lower s) (strip_lower t).
Proof.
  induction s as [| c s IH]; [reflexivity |].
  change (String.append (String c s) t) with (String c (String.append s t)).
  cbn [strip_lower]. rewrite IH. now destruct (is_alnum c).
Qed.



Lemma normalizeAddr_string (s : string) :
  normalizeAddr (JStr s) = strip_lower s.
Proof.
  unfold normalizeAddr, Js.or. cbn [Js.truthy].
  destruct (String.eqb_spec s ""); cbn [negb Js.ToString]; now subst.
Qed.


Lemma strip_lower_nothing (u : string) :
  all_chars (fun x => negb (is_alnum x)) u = true ->
  strip_lower u = EmptyString.
Proof.
  induction u as [| x u IH]; cbn [all_chars strip_lower]; [reflexivity |].
  intros Hu. apply andb_prop in Hu as [Hx Hu].
  destruct (is_alnum x); [discriminate Hx | now apply IH].
Qed.

Lemma lower_ascii (c : ascii) :
  let n := N_of_ascii c in
  if ((65 <=? n) && (n <=? 90))%N then N_of_ascii (lower c) = (n + 32)%N
  else lower c = c.
Proof.
  destruct c as [[] [] [] [] [] [] [] []]; reflexivity.
Qed.

(** X2: what normalization ignores.  Inside an address string, any run
    of bytes that are not ASCII digits or letters can be dropped (a
    separator, or a character outside ASCII such as the Kelvin sign,
    whose bytes are all of this kind: the pattern of line 50 removes it
    before [toLowerCase] could turn it into a letter), and one of the
    letters [A] to [Z] can be replaced by the corresponding letter of [a]
    to [z], without changing the normalized address.  Nothing else is
    folded: [lower] changes the 26 bytes [A] to [Z] only. *)
Theorem normalizeAddr_insensitive (s u t : string) (c : ascii) :
  (all_chars (fun x => negb (is_alnum x)) u = true ->
   normalizeAddr (JStr (String.append s (String.append u t)))
   = normalizeAddr (JStr (String.append s t)))
  /\ normalizeAddr (JStr (String.append s (String c t)))
     = normalizeAddr (JStr (String.append s (String (lower c) t)))
  /\ (let n := N_of_ascii c in
      if ((65 <=? n) && (n <=? 90))%N
      then N_of_ascii (lower c) = (n + 32)%N
      else lower c = c).
Proof.
  rewrite !normalizeAddr_string, !strip_lower_app. cbn [strip_lower].
  rewrite alnum_lower, lower_lower. split; [| split].
  - intros Hu. now rewrite (strip_lower_nothing u Hu).
  - reflexivity.
  - apply lower_ascii.
Qed.

(** *** Amounts read from a transaction *)





(** *** The outcomes of a confirmation request *)

Lemma scan_loop_match (now cost : float) (buyer matched : JsVal)
    (items : list JsVal) :
  scan_loop now cost buyer items = Some matched ->
  Js.truthy matched = true ->
  In matched items /\ amount_ok cost (tx_value matched) = true.
Proof.
  induction items as [| tx rest IH]; cbn [scan_loop].
  - intros [= <-] Ht. discriminate Ht.
  - destruct (Js.nullish tx); [discriminate |].
    destruct (older_than_24h now tx).
    { intros Hs Ht. destruct (IH Hs Ht). split; [now right | assumption]. }
    destruct (amount_ok cost (tx_value tx)) eqn:Hok.
    + destruct (_ || _); intros [= <-] _; (split; [now left | exact Hok]).
    + intros Hs Ht. destruct (IH Hs Ht). split; [now right | assumption].
Qed.

Lemma finalize_pair (env : Env) (st : Store) (saleId : string)
    (sale : Sale.t) (hash : JsVal) :
  finalize env st saleId sale hash
  = (fst (finalize env st saleId sale hash), sale_confirmed_body).
Proof. reflexivity. Qed.

Lemma scan_path_cases (env : Env) (st : Store) (saleId : string)
    (sale : Sale.t) (txHash : JsVal) :
  sales st !! saleId = Some sale ->
  Sale.status sale <> confirmed ->
  confirm_outcome env st saleId txHash (scan_path env st saleId sale).
Proof.
  intros Hsale Hopen. unfold scan_path.
  destruct (txs_unavailable _) eqn:Hun.
  { now apply txs_not_available with sale. }
  destruct (iterate _) as [items |] eqn:Hit.
  2: { now apply scan_throws with sale. }
  destruct (scan_loop _ _ _ items) as [matched |] eqn:Hscan.
  2: { now apply scan_throws with sale. }
  destruct (Js.truthy matched) eqn:Ht; cbn [negb].
  2: { now apply payment_not_found with sale. }
  destruct (scan_loop_match _ _ _ _ _ Hscan Ht) as [Hin Hok].
  rewrite finalize_pair.
  apply sale_confirmed with matched; auto.
  right. exists items. split; [| exact Hin].
  unfold recent_txs. now rewrite Hun.
Qed.

Lemma confirm_cases (env : Env) (st : Store) (saleId : string)
    (body : list (string * JsVal)) :
  confirm_outcome env st saleId (Js.lookup_field "txHash" body)
                  (confirm env st saleId body).
Proof.
  unfold confirm. set (txHash := Js.lookup_field "txHash" body).
  destruct (sales st !! saleId) as [sale |] eqn:Hsale.
  2: { now apply sale_not_found. }
  assert (Hopen : Sale.status sale <> confirmed ->
                  confirm_outcome env st saleId txHash
                    match direct_path env st saleId sale txHash with
                    | Some r => r
                    | None => scan_path env st saleId sale
                    end).
  { intros Hopen. unfold direct_path.
    destruct (Js.truthy txHash) eqn:Hh.
    2: { now apply scan_path_cases. }
    destruct (lookup_tx env txHash) as [tx |] eqn:Htx.
    2: { now apply scan_path_cases. }
    destruct (amount_ok _ _ && sender_ok _ _) eqn:Hok.
    - rewrite finalize_pair.
      apply andb_prop in Hok as [Hok _].
      apply sale_confirmed with tx; auto. now left.
    - now apply tx_mismatch with sale. }
  destruct (Sale.status sale) eqn:Hst.
  - apply Hopen. discriminate.
  - apply Hopen. discriminate.
  - now apply already_confirmed with sale.
Qed.

(** What a request that ended with [sale_confirmed] did. *)
Lemma confirm_finalized (env : Env) (st : Store) (saleId : string)
    (body : list (string * JsVal)) (sale : Sale.t) :
  sales st !! saleId = Some sale ->
  snd (confirm env st saleId body) = json sale_confirmed_body ->
  Sale.status sale <> confirmed
  /\ (exists hash : JsVal,
        fst (confirm env st saleId body)
        = fst (finalize env st saleId sale hash))
  /\ exists tx : JsVal,
       reported env sale (Js.lookup_field "txHash" body) tx
       /\ amount_ok (Sale.cost sale) (tx_value tx) = true.
Proof.
  intros Hsale Hresp.
  pose proof (confirm_cases env st saleId body) as Hc.
  remember (confirm env st saleId body) as r eqn:Hr. clear Hr.
  destruct Hc as [Hn | s Hs Hst | s tx Hs Hst Hh Htx Hok | s Hs Hst
                  | s Hs Hst | s Hs Hst | s tx hash Hs Hst Hrep Hok];
    cbn [snd fst] in *; try discriminate Hresp.
  assert (s = sale) as -> by congruence.
  split; [exact Hst |]. split; [now exists hash |]. now exists tx.
Qed.

(** What a request that ended otherwise did. *)
Lemma confirm_not_finalized (env : Env) (st : Store) (saleId : string)
    (body : list (string * JsVal)) :
  snd (confirm env st saleId body) <> json sale_confirmed_body ->
  fst (confirm env st saleId body) = st
  \/ (fst (confirm env st saleId body) = mark_pending_check st saleId
      /\ status (snd (confirm env st saleId body)) = 200%nat).
Proof.
  intros Hresp.
  pose proof (confirm_cases env st saleId body) as Hc.
  remember (confirm env st saleId body) as r eqn:Hr. clear Hr.
  destruct Hc; cbn [snd fst] in *; auto.
  now contradiction Hresp.
Qed.


(** X4: a sale is confirmed only against a payment.  When a confirmation
    request is answered [sale_confirmed], the sale was not confirmed
    before, its cost is a number, and the explorer reported to this very
    request a transaction (the one of the given hash, or one of the
    seller's recent transactions) whose value reaches the cost less
    1e-7. *)
Theorem confirm_requires_payment (env : Env) (st : Store) (saleId : string)
    (body : list (string * JsVal)) (sale : Sale.t) :
  sales st !! saleId = Some sale ->
  snd (confirm env st saleId body) = json sale_confirmed_body ->
  Sale.status sale <> confirmed
  /\ Fl.num (Sale.cost sale) = true
  /\ exists tx : JsVal,
       reported env sale (Js.lookup_field "txHash" body) tx
       /\ PrimFloat.leb (PrimFloat.sub (Sale.cost sale) 0.0000001)
                        (tx_value tx) = true.
Proof.
  intros Hsale Hresp.
  destruct (confirm_finalized env st saleId body sale Hsale Hresp)
    as (Hopen & _ & tx & Hrep & Hok).
  split; [exact Hopen |]. split; [exact (amount_ok_num _ _ Hok) |].
  now exists tx.
Qed.

(** X5: nothing is credited without the answer [sale_confirmed].  Take a
    confirmation request that carries no transaction hash, or whose hash
    lookup finds no transaction, so that the scan decides.  Any answer
    to it other than [sale_confirmed] and other than status 500 leaves
    the tokens, the balances and the history as they were; of the sales,
    at most the status of the requested one changes, to [pending_check].
    (Status 500 is left out: it is also the answer when a store call
    fails, which may happen after earlier writes of the same request.) *)
Theorem confirm_unpaid_effects (env : Env) (st : Store) (saleId : string)
    (body : list (string * JsVal)) :
  Js.truthy (Js.lookup_field "txHash" body) = false
  \/ lookup_tx env (Js.lookup_field "txHash" body) = None ->
  snd (confirm env st saleId body) <> json sale_confirmed_body ->
  status (snd (confirm env st saleId body)) <> 500%nat ->
  let st' := fst (confirm env st saleId body) in
  tokens st' = tokens st /\ balances st' = balances st
  /\ history st' = history st
  /\ (sales st' = sales st
      \/ sales st'
         = alter (Sale.update_status pending_check) saleId (sales st)).
Proof.
  intros _ Hresp _. cbv zeta.
  destruct (confirm_not_finalized env st saleId body Hresp) as [-> | [-> _]].
  - auto.
  - cbn. auto.
Qed.

(** X6: what a confirmed sale credits.  When a confirmation request is
    answered [sale_confirmed], the sale document becomes [confirmed]; the
    balance document of the sale's token and buyer holds its former amount
    (0 when it was missing, zero or not a number) plus the amount of the
    sale, and no other balance document changes; the token document, if
    there is one, gets the update of [finalize]; and the history gains one
    [buy_confirmed] entry. *)
Theorem confirm_credits_buyer (env : Env) (st : Store) (saleId : string)
    (body : list (string * JsVal)) (sale : Sale.t) :
  sales st !! saleId = Some sale ->
  snd (confirm env st saleId body) = json sale_confirmed_body ->
  let st' := fst (confirm env st saleId body) in
  let key := balance_key (JStr (Sale.tokenId sale)) (Sale.buyer sale) in
  sale_status st' saleId = Some confirmed
  /\ balances st'
     = <[key := {| Balance.tokenId := JStr (Sale.tokenId sale);
                   Balance.address := Sale.buyer sale;
                   Balance.amount :=
                     PrimFloat.add (balance_of (balances st) key)
                                   (Sale.amountTokens sale) |}]>
         (balances st)
  /\ tokens st'
     = match tokens st !! Sale.tokenId sale with
       | Some tok =>
           <[Sale.tokenId sale :=
               finalize_token tok (Sale.amountTokens sale)]> (tokens st)
       | None => tokens st
       end
  /\ history st'
     = <[uid env 0 :=
           HBuyConfirmed (date_now env) saleId (Sale.tokenId sale)
             (Sale.buyer sale) (Sale.seller sale) (Sale.amountTokens sale)
             (Sale.cost sale)]> (history st).
Proof.
  intros Hsale Hresp. cbv zeta.
  destruct (confirm_finalized env st saleId body sale Hsale Hresp)
    as (_ & (hash & ->) & _).
  split.
  { unfold sale_status. rewrite finalize_sales, lookup_alter_eq, Hsale.
    reflexivity. }
  unfold finalize. cbn.
  destruct (tokens st !! Sale.tokenId sale); cbn; auto.
Qed.

(** X7: no double credit.  Once a confirmation request has been answered
    [sale_confirmed], every later confirmation request for the same sale,
    whatever it carries and whatever the explorer says, is answered
    [already_confirmed] and changes nothing. *)
Theorem confirm_once (env : Env) (st : Store) (saleId : string)
    (body : list (string * JsVal)) :
  snd (confirm env st saleId body) = json sale_confirmed_body ->
  forall (env' : Env) (body' : list (string * JsVal)),
    confirm env' (fst (confirm env st saleId body)) saleId body'
    = (fst (confirm env st saleId body), json already_confirmed_body).
Proof.
  intros Hresp env' body'.
  destruct (sales st !! saleId) as [sale |] eqn:Hsale.
  2: { unfold confirm in Hresp. rewrite Hsale in Hresp. discriminate Hresp. }
  destruct (confirm_finalized env st saleId body sale Hsale Hresp)
    as (_ & (hash & ->) & _).
  unfold confirm at 1.
  rewrite finalize_sales, lookup_alter_eq, Hsale. reflexivity.
Qed.

Lemma same_terms_refl (s : Sale.t) : same_terms s s.
Proof. unfold same_terms. tauto. Qed.

Lemma update_status_terms (x : SaleStatus) (s : Sale.t) :
  same_terms s (Sale.update_status x s).
Proof. unfold same_terms. cbn. tauto. Qed.

Lemma update_confirmed_terms (hash : JsVal) (t : float) (s : Sale.t) :
  same_terms s (Sale.update_confirmed hash t s).
Proof. unfold same_terms. cbn. tauto. Qed.

Lemma alter_sale (f : Sale.t -> Sale.t) (m : gmap string Sale.t)
    (saleId k : string) (sale s : Sale.t) :
  (forall x, same_terms x (f x)) ->
  m !! saleId = Some sale -> Sale.status sale <> confirmed ->
  m !! k = Some s ->
  exists s' : Sale.t,
    alter f saleId m !! k = Some s' /\ same_terms s s'
    /\ (k <> saleId \/ Sale.status s = confirmed -> s' = s).
Proof.
  intros Hf Hsale Hopen Hk. destruct (decide (saleId = k)) as [-> | Hne].
  - exists (f s). rewrite lookup_alter_eq, Hk. split; [reflexivity |].
    split; [apply Hf |]. intros [Hne | Hst]; [congruence |].
    rewrite Hk in Hsale. injection Hsale as ->. contradiction.
  - exists s. rewrite lookup_alter_ne by exact Hne.
    split; [exact Hk |]. split; [apply same_terms_refl | reflexivity].
Qed.

(** X8: the terms of a sale are never rewritten.  A confirmation request
    keeps every sale document; the document of the requested sale keeps
    its id, token, ticker, buyer, seller, amount, cost and creation time,
    and is left entirely as it was when it is already [confirmed]; the
    documents of all other sales are left as they were. *)
Theorem confirm_keeps_terms (env : Env) (st : Store) (saleId : string)
    (body : list (string * JsVal)) (k : string) (s : Sale.t) :
  sales st !! k = Some s ->
  exists s' : Sale.t,
    sales (fst (confirm env st saleId body)) !! k = Some s'
    /\ same_terms s s'
    /\ (k <> saleId \/ Sale.status s = confirmed -> s' = s).
Proof.
  intros Hk.
  assert (Hsame : exists s' : Sale.t,
             sales st !! k = Some s' /\ same_terms s s'
             /\ (k <> saleId \/ Sale.status s = confirmed -> s' = s)).
  { exists s. split; [exact Hk |]. split; [apply same_terms_refl | reflexivity]. }
  pose proof (confirm_cases env st saleId body) as Hc.
  remember (confirm env st saleId body) as r eqn:Hr. clear Hr.
  destruct Hc as [Hn | sale Hs Hst | sale tx Hs Hst Hh Htx Hok | sale Hs Hst
                  | sale Hs Hst | sale Hs Hst | sale tx hash Hs Hst Hrep Hok];
    cbn [fst]; try exact Hsame.
  - apply alter_sale with sale; auto using update_status_terms.
  - apply alter_sale with sale; auto using update_status_terms.
  - rewrite finalize_sales.
    apply alter_sale with sale; auto using update_confirmed_terms.
Qed.

(** X9: [pending_check] does not block a retry.  For a sale that is not
    confirmed, a confirmation request gets the same answer whether or not
    an earlier request has marked the sale [pending_check]. *)
Theorem pending_check_retry (env : Env) (st : Store) (saleId : string)
    (body : list (string * JsVal)) (sale : Sale.t) :
  sales st !! saleId = Some sale ->
  Sale.status sale <> confirmed ->
  snd (confirm env (mark_pending_check st saleId) saleId body)
  = snd (confirm env st saleId body).
Proof.
  intros Hsale Hopen.
  rewrite (confirm_open env st saleId body sale Hsale Hopen).
  rewrite (confirm_open env (mark_pending_check st saleId) saleId body
             (Sale.update_status pending_check sale)).
  2: { cbn. now rewrite lookup_alter_eq, Hsale. }
  2: { discriminate. }
  unfold direct_path, scan_path.
  cbn [Sale.update_status Sale.cost Sale.buyer Sale.seller].
  destruct (Js.truthy (Js.lookup_field "txHash" body)).
  - destruct (lookup_tx env _) as [tx |].
    + destruct (_ && _); reflexivity.
    + destruct (txs_unavailable _); [reflexivity |].
      destruct (iterate _) as [items |]; [| reflexivity].
      destruct (scan_loop _ _ _ items) as [m |]; [| reflexivity].
      destruct (negb (Js.truthy m)); reflexivity.
  - destruct (txs_unavailable _); [reflexivity |].
    destruct (iterate _) as [items |]; [| reflexivity].
    destruct (scan_loop _ _ _ items) as [m |]; [| reflexivity].
    destruct (negb (Js.truthy m)); reflexivity.
Qed.

(** *** Creating tokens and recording sales *)

(** X10: a purchase order reserves nothing.  Whatever its answer, a buy
    request changes neither the tokens (the remaining supply stays as it
    is until a confirmation) nor the balances.  When it is answered with
    status 200 it has recorded one [pending] sale under the first fresh
    id, for the token and the buyer of the request and for an amount that
    is not below or equal to 0, and one [sale_created] history entry. *)
Theorem buy_reserves_nothing (env : Env) (st : Store) (tokenId : string)
    (body : list (string * JsVal)) :
  let r := buy env st tokenId body in
  tokens (fst r) = tokens st /\ balances (fst r) = balances st
  /\ (status (snd r) = 200%nat ->
      exists sale : Sale.t,
        sales (fst r) = <[uid env 0 := sale]> (sales st)
        /\ history (fst r)
           = <[uid env 1 := HSaleCreated (date_now env) (uid env 0) sale]>
               (history st)
        /\ Sale.status sale = pending
        /\ Sale.id sale = uid env 0
        /\ Sale.tokenId sale = tokenId
        /\ Sale.buyer sale = Js.lookup_field "buyer" body
        /\ Sale.amountTokens sale
           = Js.ToNumber (Js.lookup_field "amountTokens" body)
        /\ PrimFloat.leb (Sale.amountTokens sale) 0 = false).
Proof.
  cbv zeta. unfold buy.
  destruct (_ || _); [cbn; repeat split; discriminate |].
  destruct (tokens st !! tokenId) as [tok |];
    [| cbn; repeat split; discriminate].
  destruct (PrimFloat.leb _ 0) eqn:Hle; [cbn; repeat split; discriminate |].
  destruct (is_listing (Token.type tok)).
  - destruct (PrimFloat.ltb _ _); [cbn; repeat split; discriminate |].
    cbn. repeat split. intros _. eexists. repeat split. exact Hle.
  - cbn. repeat split. intros _. eexists. repeat split. exact Hle.
Qed.





(** *** What no request does *)

Lemma status_json (b : JsVal) : status (json b) = 200%nat.
Proof. reflexivity. Qed.

(** X13: a refused request changes nothing.  A request to one of the
    four POST routes that is answered with status 400 or 404 leaves the
    four collections exactly as they were: every such answer is given
    before the first write of the handler.  (Status 500 is left out: it
    is also the answer when a store call fails, which may happen after
    earlier writes of the same request. A confirmation answered
    [{ok: false}] has status 200 and may set [pending_check].) *)
Theorem error_leaves_store (env : Env) (st : Store) (req : Request) :
  status (snd (handle env st req)) = 400%nat
  \/ status (snd (handle env st req)) = 404%nat ->
  fst (handle env st req) = st.
Proof.
  destruct req as [body | tokenId body | saleId body | body]; cbn [handle].
  - unfold create. destruct (_ || _); [reflexivity |].
    destruct (create_token env body); [| reflexivity].
    cbn. intros [Hst | Hst]; discriminate Hst.
  - unfold buy. destruct (_ || _); [reflexivity |].
    destruct (tokens st !! tokenId) as [tok |]; [| reflexivity].
    destruct (PrimFloat.leb _ 0); [reflexivity |].
    destruct (if is_listing _ then _ else _); [| reflexivity].
    cbn. intros [Hst | Hst]; discriminate Hst.
  - pose proof (confirm_cases env st saleId body) as Hc.
    remember (confirm env st saleId body) as r eqn:Hr. clear Hr.
    destruct Hc; cbn [fst snd]; try reflexivity;
      rewrite status_json; intros [Hst | Hst]; discriminate Hst.
  - unfold transfer. destruct (_ || _); [reflexivity |].
    destruct (PrimFloat.leb _ 0); [reflexivity |].
    destruct (PrimFloat.ltb _ _); [reflexivity |].
    cbn. intros [Hst | Hst]; discriminate Hst.
Qed.

Lemma keeps_documents_refl (st : Store) : keeps_documents st st.
Proof. unfold keeps_documents. auto. Qed.

Lemma keeps_documents_trans (a b c : Store) :
  keeps_documents a b -> keeps_documents b c -> keeps_documents a c.
Proof.
  intros (H1 & H2 & H3 & H4) (G1 & G2 & G3 & G4).
  unfold keeps_documents. repeat split; auto.
Qed.

Lemma insert_keeps {A : Type} (m : gmap string A) (i k : string) (x : A) :
  is_Some (m !! k) -> is_Some (<[i := x]> m !! k).
Proof. intros Hk. apply lookup_insert_is_Some'. now right. Qed.

Lemma alter_keeps {A : Type} (f : A -> A) (m : gmap string A)
    (i k : string) :
  is_Some (m !! k) -> is_Some (alter f i m !! k).
Proof. intros Hk. now apply lookup_alter_is_Some. Qed.

Ltac keeps :=
  unfold keeps_documents; cbn; repeat split; intros ? ?;
  repeat (apply insert_keeps || apply alter_keeps); assumption.

Lemma finalize_keeps (env : Env) (st : Store) (saleId : string)
    (sale : Sale.t) (hash : JsVal) :
  keeps_documents st (fst (finalize env st saleId sale hash)).
Proof.
  unfold finalize. cbn [tokens with_sales].
  destruct (tokens st !! Sale.tokenId sale); keeps.
Qed.

Lemma buy_store (env : Env) (st : Store) (tokenId : string)
    (body : list (string * JsVal)) :
  fst (buy env st tokenId body) = st
  \/ exists sale : Sale.t,
       fst (buy env st tokenId body)
       = with_history (with_sales st (<[uid env 0 := sale]> (sales st)))
           (<[uid env 1 := HSaleCreated (date_now env) (uid env 0) sale]>
              (history st))
       /\ Sale.amountTokens sale
          = Js.ToNumber (Js.lookup_field "amountTokens" body)
       /\ PrimFloat.leb (Sale.amountTokens sale) 0 = false
       /\ (Fl.num (Sale.cost sale) = true ->
           Fl.num (Sale.amountTokens sale) = true).
Proof.
  unfold buy. destruct (_ || _); [now left |].
  destruct (tokens st !! tokenId) as [tok |]; [| now left].
  destruct (PrimFloat.leb _ 0) eqn:Hle; [now left |].
  destruct (is_listing (Token.type tok)).
  - destruct (PrimFloat.ltb _ _); [now left |].
    right. eexists. split; [reflexivity |]. cbn.
    split; [reflexivity |]. split; [exact Hle |].
    intros Hc. now apply toFixed9_num, mul_num_l in Hc.
  - right. eexists. split; [reflexivity |]. cbn.
    split; [reflexivity |]. split; [exact Hle |].
    intros Hc. now apply toFixed9_num, mul_num_l in Hc.
Qed.

Lemma handle_keeps (env : Env) (st : Store) (req : Request) :
  keeps_documents st (fst (handle env st req)).
Proof.
  destruct req as [body | tokenId body | saleId body | body]; cbn [handle].
  - unfold create. destruct (_ || _); [apply keeps_documents_refl |].
    destruct (create_token env body); [| apply keeps_documents_refl].
    keeps.
  - destruct (buy_store env st tokenId body) as [-> | (sale & -> & _)].
    + apply keeps_documents_refl.
    + keeps.
  - pose proof (confirm_cases env st saleId body) as Hc.
    remember (confirm env st saleId body) as r eqn:Hr. clear Hr.
    destruct Hc; cbn [fst]; try apply keeps_documents_refl;
      try apply finalize_keeps; keeps.
  - unfold transfer. destruct (_ || _); [apply keeps_documents_refl |].
    destruct (PrimFloat.leb _ 0); [apply keeps_documents_refl |].
    destruct (PrimFloat.ltb _ _); [apply keeps_documents_refl |].
    keeps.
Qed.

(** X14: nothing is ever deleted.  After any sequence of requests to the
    four POST routes, every token, sale, balance and history document
    that was in the store is still there (possibly updated). *)
Theorem serve_keeps_documents (st : Store) (reqs : list (Env * Request)) :
  keeps_documents st (serve st reqs).
Proof.
  revert st. induction reqs as [| [env req] rest IH]; intros st.
  - apply keeps_documents_refl.
  - cbn [serve fold_left fst snd].
    apply keeps_documents_trans with (fst (handle env st req)).
    + apply handle_keeps.
    + apply IH.
Qed.

(** *** Transfers *)




(** *** Balances are never negative *)

Lemma leb_zero_zero : PrimFloat.leb 0 0 = true.
Proof. reflexivity. Qed.

Lemma balance_of_nonneg (m : gmap string Balance.t) (key : string) :
  amounts_nonneg m -> PrimFloat.leb 0 (balance_of m key) = true.
Proof.
  intros Hm. unfold balance_of.
  destruct (m !! key) as [b |] eqn:Hb; [| exact leb_zero_zero].
  pose proof (Hm key b Hb) as Hle. cbn beta in Hle.
  destruct (num_or_zero _ Hle) as (Nn & HR & _).
  apply leb_iff in Hle as (N0 & _ & Hle).
  apply leb_iff. rewrite HR. auto.
Qed.

Lemma add_nonneg_l (x a : float) :
  PrimFloat.leb 0 x = true -> PrimFloat.leb 0 a = true ->
  PrimFloat.leb 0 (PrimFloat.add x a) = true.
Proof.
  intros Hx Ha. destruct (add_nonneg x a Hx Ha) as [Hle _].
  now apply leb_trans with x.
Qed.

Lemma transfer_nonneg (env : Env) (st : Store)
    (body : list (string * JsVal)) :
  balances_nonneg st ->
  Fl.finite (Js.ToNumber (Js.lookup_field "amount" body)) = true ->
  balances_nonneg (fst (transfer env st body)).
Proof.
  intros Hst Hfin. unfold transfer.
  destruct (_ || _); [exact Hst |].
  set (amt := Js.ToNumber (Js.lookup_field "amount" body)) in *.
  destruct (PrimFloat.leb amt 0) eqn:Hpos; [exact Hst |].
  set (have := balance_of (balances st) _).
  destruct (PrimFloat.ltb have amt) eqn:Hhave; [exact Hst |].
  pose proof (proj1 (finite_iff amt) Hfin) as (Na & _).
  pose proof (balance_of_nonneg (balances st)
                (balance_key (Js.lookup_field "tokenId" body)
                             (Js.lookup_field "from" body)) Hst) as Hh.
  fold have in Hh.
  assert (Nh : Fl.num have = true) by (apply leb_iff in Hh; tauto).
  assert (Ha : PrimFloat.leb 0 amt = true).
  { apply leb_iff. split; [exact num_zero |]. split; [exact Na |].
    pose proof (leb_false_gt amt 0 Na num_zero Hpos). lia. }
  unfold balances_nonneg. cbn [fst balances with_history with_balances].
  assert (Hb1 : amounts_nonneg
                  (<[balance_key (Js.lookup_field "tokenId" body)
                                 (Js.lookup_field "from" body) :=
                       {| Balance.tokenId := Js.lookup_field "tokenId" body;
                          Balance.address := Js.lookup_field "from" body;
                          Balance.amount := PrimFloat.sub have amt |}]>
                     (balances st))).
  { apply map_Forall_insert_2; [| exact Hst]. cbn.
    apply sub_nonneg; [exact Nh | exact Hfin |].
    now apply ltb_false_ge. }
  apply map_Forall_insert_2; [| exact Hb1]. cbn.
  apply add_nonneg_l; [| exact Ha].
  now apply balance_of_nonneg.
Qed.

Lemma alter_sales_nonneg (f : Sale.t -> Sale.t) (saleId : string)
    (m : gmap string Sale.t) :
  (forall x, same_terms x (f x)) ->
  payable_nonneg m -> payable_nonneg (alter f saleId m).
Proof.
  intros Hf Hm k s Hk.
  apply lookup_alter_Some in Hk as [(_ & x & Hx & ->) | (_ & Hk)].
  - destruct (Hf x) as (_ & _ & _ & _ & _ & -> & -> & _). exact (Hm k x Hx).
  - exact (Hm k s Hk).
Qed.

Lemma finalize_balances (env : Env) (st : Store) (saleId : string)
    (sale : Sale.t) (hash : JsVal) :
  let key := balance_key (JStr (Sale.tokenId sale)) (Sale.buyer sale) in
  balances (fst (finalize env st saleId sale hash))
  = <[key := {| Balance.tokenId := JStr (Sale.tokenId sale);
                Balance.address := Sale.buyer sale;
                Balance.amount :=
                  PrimFloat.add (balance_of (balances st) key)
                                (Sale.amountTokens sale) |}]>
      (balances st).
Proof.
  unfold finalize. cbn.
  now destruct (tokens st !! Sale.tokenId sale).
Qed.

Lemma confirm_nonneg (env : Env) (st : Store) (saleId : string)
    (body : list (string * JsVal)) :
  balances_nonneg st -> sales_nonneg st ->
  balances_nonneg (fst (confirm env st saleId body))
  /\ sales_nonneg (fst (confirm env st saleId body)).
Proof.
  intros Hb Hs.
  pose proof (confirm_cases env st saleId body) as Hc.
  remember (confirm env st saleId body) as r eqn:Hr. clear Hr.
  destruct Hc as [Hn | sale Hsale Hst | sale tx Hsale Hst Hh Htx Hok
                  | sale Hsale Hst | sale Hsale Hst | sale Hsale Hst
                  | sale tx hash Hsale Hst Hrep Hok];
    cbn [fst]; auto.
  - split; [exact Hb |].
    apply alter_sales_nonneg; auto using update_status_terms.
  - split; [exact Hb |].
    apply alter_sales_nonneg; auto using update_status_terms.
  - split.
    + unfold balances_nonneg. rewrite finalize_balances.
      apply map_Forall_insert_2; [| exact Hb]. cbn.
      apply add_nonneg_l; [now apply balance_of_nonneg |].
      apply (Hs saleId sale Hsale). exact (amount_ok_num _ _ Hok).
    + unfold sales_nonneg. rewrite finalize_sales.
      apply alter_sales_nonneg; auto using update_confirmed_terms.
Qed.

Lemma handle_nonneg (env : Env) (st : Store) (req : Request) :
  balances_nonneg st -> sales_nonneg st -> finite_transfer req ->
  balances_nonneg (fst (handle env st req))
  /\ sales_nonneg (fst (handle env st req)).
Proof.
  intros Hb Hs Hreq.
  destruct req as [body | tokenId body | saleId body | body]; cbn [handle].
  - unfold create. destruct (_ || _); [auto |].
    destruct (create_token env body); auto.
  - destruct (buy_store env st tokenId body)
      as [-> | (sale & -> & _ & Hle & Hnum)]; [auto |].
    split; [exact Hb |]. unfold sales_nonneg. cbn.
    apply map_Forall_insert_2; [| exact Hs].
    intros Hc. specialize (Hnum Hc). apply leb_iff.
    split; [exact num_zero |]. split; [exact Hnum |].
    pose proof (leb_false_gt _ 0 Hnum num_zero Hle). lia.
  - now apply confirm_nonneg.
  - split; [now apply transfer_nonneg |].
    unfold transfer. destruct (_ || _); [exact Hs |].
    destruct (PrimFloat.leb _ 0); [exact Hs |].
    destruct (PrimFloat.ltb _ _); exact Hs.
Qed.

(** X17: balances never become negative.  Start from a store in which
    every balance is a number that is not negative and every payable sale
    (one whose cost is a number) is for an amount that is not negative.
    Then after any sequence of create, buy, confirm and transfer
    requests, in which the amount of every transfer request is a finite
    number, every balance is still a number that is not negative. *)
Theorem balances_stay_nonneg (st : Store) (reqs : list (Env * Request)) :
  balances_nonneg st -> sales_nonneg st ->
  Forall (fun r => finite_transfer (snd r)) reqs ->
  balances_nonneg (serve st reqs).
Proof.
  revert st. induction reqs as [| [env req] rest IH]; intros st Hb Hs Hreqs.
  - exact Hb.
  - inversion Hreqs as [| ? ? Hreq Hrest]; subst.
    destruct (handle_nonneg env st req Hb Hs Hreq) as [Hb' Hs'].
    cbn [serve fold_left fst snd]. now apply IH.
Qed.

(** X18: balance documents are not keyed injectively.  The id of a
    balance document joins the token id and the address with ["__"], so
    the token [a__b] at the address [c] and the token [a] at the address
    [b__c] share one balance document. *)
Theorem balance_key_collision (a b c : string) :
  balance_key (JStr (doc_key a b)) (JStr c)
  = balance_key (JStr a) (JStr (doc_key b c)).
Proof.
  unfold balance_key, doc_key. cbn [Js.ToString].
  assert (Happ : forall x y z : string,
             String.append (String.append x y) z
             = String.append x (String.append y z)).
  { intros x y z. induction x as [| ch x IH]; [reflexivity |].
    change (String.append (String.append (String ch x) y) z)
      with (String ch (String.append (String.append x y) z)).
    now rewrite IH. }
  now rewrite !Happ.
Qed.

(** *** The two queries *)

Lemma In_insert_by_id {A : Type} (x y : string * A)
    (l : list (string * A)) :
  In x (insert_by_id y l) <-> x = y \/ In x l.
Proof.
  induction l as [| z l IH]; cbn [insert_by_id].
  - cbn. intuition congruence.
  - destruct (String.leb (fst y) (fst z)); cbn [In] in *;
      intuition congruence.
Qed.

Lemma In_docs_by_id {A : Type} (m : gmap string A) (d : A) :
  In d (docs_by_id m) <-> exists k : string, m !! k = Some d.
Proof.
  unfold docs_by_id. rewrite in_map_iff.
  assert (Hsort : forall (l : list (string * A)) (x : string * A),
             In x (fold_right insert_by_id [] l) <-> In x l).
  { induction l as [| y l IH]; intros x; cbn [fold_right]; [reflexivity |].
    rewrite In_insert_by_id, IH. cbn. intuition congruence. }
  split.
  - intros ([k d'] & <- & Hin). exists k.
    apply (proj1 (Hsort _ _)) in Hin.
    apply (proj2 (list_elem_of_In _ _)) in Hin.
    now apply elem_of_map_to_list in Hin.
  - intros (k & Hk). exists (k, d). split; [reflexivity |].
    apply (proj2 (Hsort _ _)), (proj1 (list_elem_of_In _ _)).
    now apply elem_of_map_to_list.
Qed.

Lemma In_firstn {A : Type} (n : nat) (l : list A) (x : A) :
  In x (firstn n l) -> In x l.
Proof.
  revert l. induction n as [| n IH]; intros [| y l]; cbn;
    try contradiction.
  intros [-> | Hin]; [now left | right; now apply IH].
Qed.

Lemma field_is_spec (addr : string) (v : JsVal) :
  field_is addr v = true <-> v = JStr addr.
Proof.
  destruct v; cbn; try (split; [discriminate | congruence]).
  rewrite String.eqb_eq. split; congruence.
Qed.

(** X19: what the history of an address shows.  The reply of
    GET /api/history/:address holds at most 100 entries; each of them is
    a stored history document whose buyer is exactly the address asked
    for, and none of them is a [transfer] entry: transfers are recorded,
    but they have no buyer, so no history reply ever shows one, neither
    to the sender nor to the receiver. *)
Theorem history_reply (st : Store) (addr : string) :
  (length (get_history st addr) <= 100)%nat
  /\ forall e : HistoryEntry,
       In e (get_history st addr) ->
       entry_buyer e = JStr addr
       /\ (exists k : string, history st !! k = Some e)
       /\ match e with
          | HTransfer _ _ _ _ _ => False
          | _ => True
          end.
Proof.
  unfold get_history. split; [apply firstn_le_length |].
  intros e Hin. apply In_firstn, filter_In in Hin as [Hin Hb].
  apply field_is_spec in Hb. split; [exact Hb |].
  split; [now apply In_docs_by_id |].
  destruct e; try exact I. discriminate Hb.
Qed.

(** X20: a confirmed purchase shows in the buyer's balances.  When a
    confirmation request is answered [sale_confirmed] for a sale whose
    buyer is the string [addr], the reply of GET /api/balances/addr on the
    resulting store lists the balance document of the sale's token with
    the credited amount; and every document such a reply lists has
    exactly the address asked for. *)
Theorem balances_show_credit (env : Env) (st : Store) (saleId : string)
    (body : list (string * JsVal)) (sale : Sale.t) (addr : string) :
  sales st !! saleId = Some sale ->
  Sale.buyer sale = JStr addr ->
  snd (confirm env st saleId body) = json sale_confirmed_body ->
  let st' := fst (confirm env st saleId body) in
  In {| Balance.tokenId := JStr (Sale.tokenId sale);
        Balance.address := JStr addr;
        Balance.amount :=
          PrimFloat.add
            (balance_of (balances st)
               (balance_key (JStr (Sale.tokenId sale)) (JStr addr)))
            (Sale.amountTokens sale) |}
     (get_balances st' addr)
  /\ forall b : Balance.t,
       In b (get_balances st' addr) -> Balance.address b = JStr addr.
Proof.
  intros Hsale Hbuyer Hresp. cbv zeta. unfold get_balances. split.
  - destruct (confirm_finalized env st saleId body sale Hsale Hresp)
      as (_ & (hash & ->) & _).
    apply filter_In. split; [| cbn; apply String.eqb_refl].
    apply In_docs_by_id. rewrite finalize_balances, Hbuyer.
    eexists. apply lookup_insert_eq.
  - intros b Hin. apply filter_In in Hin as [_ Hb].
    now apply field_is_spec in Hb.
Qed.

(** *** One payment, several sales *)




(** *** The direction of a transfer *)


End Behaviour.

(** * Further examples

    The additional theorems at the concrete host, store and explorer
    replies of [Demo] and [Cases]. *)

Section MoreExamples.
#[local] Existing Instance Demo.host.

Lemma normalizeAddr_insensitive_witness :
  let kelvin := String (ascii_of_N 226) (String (ascii_of_N 132)
                  (String (ascii_of_N 170) EmptyString)) in
  all_chars (fun x => negb (is_alnum x)) kelvin = true
  /\ normalizeAddr (JStr (String.append "kelvin" (String.append kelvin "")))
     = normalizeAddr (JStr (String.append "kelvin" ""))
  /\ normalizeAddr (JStr "kelvin") = "kelvin"
  /\ normalizeAddr (JStr (String.append "EQ-" (String "B" "uyer_01")))
     = normalizeAddr (JStr (String.append "EQ-" (String (lower "B") "uyer_01")))
  /\ normalizeAddr (JStr "EQ-Buyer_01") = "eqbuyer01".
Proof.
  cbv zeta.
  destruct (normalizeAddr_insensitive "kelvin"
              (String (ascii_of_N 226) (String (ascii_of_N 132)
                 (String (ascii_of_N 170) EmptyString))) "" "B")
    as (Hdrop & _ & _).
  destruct (normalizeAddr_insensitive "EQ-" "" "uyer_01" "B")
    as (_ & Hcase & _).
  split; [reflexivity |]. split; [exact (Hdrop eq_refl) |].
  split; [reflexivity |]. split; [exact Hcase | reflexivity].
Defined.

Lemma error_leaves_store_witness :
  let env := Demo.env 0 None None in
  let short := PostTransfer (Cases.transfer_body (JNum 5)) in
  let missing := PostConfirm "s9" [] in
  status (snd (handle env Demo.store short)) = 400%nat
  /\ fst (handle env Demo.store short) = Demo.store
  /\ status (snd (handle env Demo.store missing)) = 404%nat
  /\ fst (handle env Demo.store missing) = Demo.store.
Proof.
  cbv zeta.
  assert (H400 : status (snd (handle (Demo.env 0 None None) Demo.store
                                (PostTransfer (Cases.transfer_body (JNum 5)))))
                 = 400%nat) by (vm_compute; reflexivity).
  assert (H404 : status (snd (handle (Demo.env 0 None None) Demo.store
                                (PostConfirm "s9" []))) = 404%nat)
    by (vm_compute; reflexivity).
  split; [exact H400 |].
  split; [exact (error_leaves_store _ _ _ (or_introl H400)) |].
  split; [exact H404 |].
  exact (error_leaves_store _ _ _ (or_intror H404)).
Defined.



Lemma confirm_requires_payment_witness :
  let env := Demo.env 0 None Cases.paid in
  sales Demo.store !! "s1" = Some Cases.s1
  /\ snd (confirm env Demo.store "s1" []) = json sale_confirmed_body
  /\ Sale.status Cases.s1 <> confirmed
  /\ Fl.num (Sale.cost Cases.s1) = true
  /\ exists tx : JsVal,
       reported env Cases.s1 (Js.lookup_field "txHash" []) tx
       /\ PrimFloat.leb (PrimFloat.sub (Sale.cost Cases.s1) 0.0000001)
                        (tx_value tx) = true.
Proof.
  cbv zeta.
  assert (Hs : sales Demo.store !! "s1" = Some Cases.s1)
    by (vm_compute; reflexivity).
  assert (Hr : snd (confirm (Demo.env 0 None Cases.paid) Demo.store "s1" [])
               = json sale_confirmed_body) by (vm_compute; reflexivity).
  split; [exact Hs |]. split; [exact Hr |].
  exact (confirm_requires_payment _ _ _ _ _ Hs Hr).
Defined.

Lemma confirm_unpaid_effects_witness :
  let env := Demo.env 0 None None in
  let st' := fst (confirm env Demo.store "s1" []) in
  Js.truthy (Js.lookup_field "txHash" []) = false
  /\ snd (confirm env Demo.store "s1" []) = json (not_ok_body "txs_unavailable")
  /\ tokens st' = tokens Demo.store /\ balances st' = balances Demo.store
  /\ history st' = history Demo.store
  /\ (sales st' = sales Demo.store
      \/ sales st'
         = alter (Sale.update_status pending_check) "s1" (sales Demo.store)).
Proof.
  cbv zeta.
  assert (Hr : snd (confirm (Demo.env 0 None None) Demo.store "s1" [])
               = json (not_ok_body "txs_unavailable"))
    by (vm_compute; reflexivity).
  split; [reflexivity |]. split; [exact Hr |].
  apply (confirm_unpaid_effects (Demo.env 0 None None) Demo.store "s1" []).
  - left. reflexivity.
  - rewrite Hr. discriminate.
  - rewrite Hr. discriminate.
Defined.

Lemma confirm_credits_buyer_witness :
  let env := Demo.env 0 None Cases.paid in
  let st' := fst (confirm env Demo.store "s1" []) in
  let key := balance_key (JStr (Sale.tokenId Cases.s1))
                         (Sale.buyer Cases.s1) in
  sales Demo.store !! "s1" = Some Cases.s1
  /\ snd (confirm env Demo.store "s1" []) = json sale_confirmed_body
  /\ sale_status st' "s1" = Some confirmed
  /\ balances st'
     = <[key := {| Balance.tokenId := JStr (Sale.tokenId Cases.s1);
                   Balance.address := Sale.buyer Cases.s1;
                   Balance.amount :=
                     PrimFloat.add (balance_of (balances Demo.store) key)
                                   (Sale.amountTokens Cases.s1) |}]>
         (balances Demo.store)
  /\ tokens st'
     = match tokens Demo.store !! Sale.tokenId Cases.s1 with
       | Some tok =>
           <[Sale.tokenId Cases.s1 :=
               finalize_token tok (Sale.amountTokens Cases.s1)]>
             (tokens Demo.store)
       | None => tokens Demo.store
       end
  /\ history st'
     = <[uid env 0 :=
           HBuyConfirmed (date_now env) "s1" (Sale.tokenId Cases.s1)
             (Sale.buyer Cases.s1) (Sale.seller Cases.s1)
             (Sale.amountTokens Cases.s1) (Sale.cost Cases.s1)]>
         (history Demo.store).
Proof.
  cbv zeta.
  assert (Hs : sales Demo.store !! "s1" = Some Cases.s1)
    by (vm_compute; reflexivity).
  assert (Hr : snd (confirm (Demo.env 0 None Cases.paid) Demo.store "s1" [])
               = json sale_confirmed_body) by (vm_compute; reflexivity).
  split; [exact Hs |]. split; [exact Hr |].
  exact (confirm_credits_buyer _ _ _ _ _ Hs Hr).
Defined.

Lemma confirm_once_witness :
  let env := Demo.env 0 None Cases.paid in
  snd (confirm env Demo.store "s1" []) = json sale_confirmed_body
  /\ forall (env' : Env) (body' : list (string * JsVal)),
       confirm env' (fst (confirm env Demo.store "s1" [])) "s1" body'
       = (fst (confirm env Demo.store "s1" []), json already_confirmed_body).
Proof.
  cbv zeta.
  assert (Hr : snd (confirm (Demo.env 0 None Cases.paid) Demo.store "s1" [])
               = json sale_confirmed_body) by (vm_compute; reflexivity).
  split; [exact Hr |].
  exact (confirm_once _ _ _ _ Hr).
Defined.

Lemma confirm_keeps_terms_witness :
  let env := Demo.env 0 None Cases.paid in
  let s2 := Demo.sale "s2" "gold" 1 2.5 confirmed in
  sales Demo.store !! "s2" = Some s2
  /\ exists s' : Sale.t,
       sales (fst (confirm env Demo.store "s1" [])) !! "s2" = Some s'
       /\ same_terms s2 s'
       /\ ("s2" <> "s1" \/ Sale.status s2 = confirmed -> s' = s2).
Proof.
  cbv zeta.
  assert (Hs : sales Demo.store !! "s2"
               = Some (Demo.sale "s2" "gold" 1 2.5 confirmed))
    by (vm_compute; reflexivity).
  split; [exact Hs |].
  exact (confirm_keeps_terms _ _ _ _ _ _ Hs).
Defined.

Lemma pending_check_retry_witness :
  let env := Demo.env 0 None Cases.paid in
  sales Demo.store !! "s1" = Some Cases.s1
  /\ Sale.status Cases.s1 <> confirmed
  /\ snd (confirm env (mark_pending_check Demo.store "s1") "s1" [])
     = snd (confirm env Demo.store "s1" []).
Proof.
  cbv zeta.
  assert (Hs : sales Demo.store !! "s1" = Some Cases.s1)
    by (vm_compute; reflexivity).
  assert (Ho : Sale.status Cases.s1 <> confirmed) by discriminate.
  split; [exact Hs |]. split; [exact Ho |].
  exact (pending_check_retry _ _ _ _ _ Hs Ho).
Defined.



Lemma balances_stay_nonneg_witness :
  let reqs :=
    [(Demo.env 0 None None, PostBuy "gold" (Demo.buy_body 6));
     (Demo.env 1 None Cases.paid, PostConfirm "id_0" []);
     (Demo.env 2 None None, PostTransfer (Cases.transfer_body (JNum 2)))] in
  balances_nonneg Demo.store /\ sales_nonneg Demo.store
  /\ balances_nonneg (serve Demo.store reqs).
Proof.
  cbv zeta.
  assert (Hb : balances_nonneg Demo.store).
  { intros k b Hk. unfold Demo.store in Hk. cbn [balances] in Hk.
    apply lookup_singleton_Some in Hk as [_ <-]. reflexivity. }
  assert (Hs : sales_nonneg Demo.store).
  { intros k s Hk. unfold Demo.store in Hk. cbn [sales] in Hk.
    apply lookup_insert_Some in Hk as [[_ <-] | [_ Hk]]; [reflexivity |].
    apply lookup_singleton_Some in Hk as [_ <-]. reflexivity. }
  split; [exact Hb |]. split; [exact Hs |].
  apply (balances_stay_nonneg Demo.store _ Hb Hs).
  repeat constructor.
Defined.

Lemma balances_show_credit_witness :
  let env := Demo.env 0 None Cases.paid in
  let st' := fst (confirm env Demo.store "s1" []) in
  sales Demo.store !! "s1" = Some Cases.s1
  /\ snd (confirm env Demo.store "s1" []) = json sale_confirmed_body
  /\ In {| Balance.tokenId := JStr (Sale.tokenId Cases.s1);
           Balance.address := JStr "EQ-Buyer_01";
           Balance.amount :=
             PrimFloat.add
               (balance_of (balances Demo.store)
                  (balance_key (JStr (Sale.tokenId Cases.s1))
                               (JStr "EQ-Buyer_01")))
               (Sale.amountTokens Cases.s1) |}
        (get_balances st' "EQ-Buyer_01")
  /\ forall b : Balance.t,
       In b (get_balances st' "EQ-Buyer_01") ->
       Balance.address b = JStr "EQ-Buyer_01".
Proof.
  cbv zeta.
  assert (Hs : sales Demo.store !! "s1" = Some Cases.s1)
    by (vm_compute; reflexivity).
  assert (Hr : snd (confirm (Demo.env 0 None Cases.paid) Demo.store "s1" [])
               = json sale_confirmed_body) by (vm_compute; reflexivity).
  split; [exact Hs |]. split; [exact Hr |].
  exact (balances_show_credit _ _ _ _ _ "EQ-Buyer_01" Hs eq_refl Hr).
Defined.

Lemma buy_reserves_nothing_witness :
  let env := Demo.env 0 None None in
  let r := buy env Demo.store "gold" (Demo.buy_body 6) in
  status (snd r) = 200%nat
  /\ tokens (fst r) = tokens Demo.store
  /\ balances (fst r) = balances Demo.store
  /\ exists sale : Sale.t,
       sales (fst r) = <[uid env 0 := sale]> (sales Demo.store)
       /\ Sale.status sale = pending
       /\ PrimFloat.leb (Sale.amountTokens sale) 0 = false.
Proof.
  cbv zeta.
  assert (Hst : status (snd (buy (Demo.env 0 None None) Demo.store "gold"
                              (Demo.buy_body 6))) = 200%nat)
    by (vm_compute; reflexivity).
  destruct (buy_reserves_nothing (Demo.env 0 None None) Demo.store "gold"
              (Demo.buy_body 6)) as (Htok & Hbal & Hsale).
  destruct (Hsale Hst) as (sale & Hs & _ & Hp & _ & _ & _ & _ & Hle).
  split; [exact Hst |]. split; [exact Htok |]. split; [exact Hbal |].
  exists sale. split; [exact Hs |]. split; [exact Hp | exact Hle].
Defined.

Lemma history_reply_witness :
  let st1 :=
    fst (buy (Demo.env 0 None None) Demo.store "gold" (Demo.buy_body 6)) in
  let st2 :=
    fst (transfer (Demo.env 1 None None) st1
           (Cases.transfer_body (JNum 2))) in
  length (get_history st2 "EQ-Buyer_01") = 1%nat
  /\ get_history st2 "alice" = []
  /\ get_history st2 "bob" = []
  /\ forall e : HistoryEntry,
       In e (get_history st2 "EQ-Buyer_01") ->
       entry_buyer e = JStr "EQ-Buyer_01"
       /\ (exists k : string, history st2 !! k = Some e)
       /\ match e with
          | HTransfer _ _ _ _ _ => False
          | _ => True
          end.
Proof.
  cbv zeta. split; [vm_compute; reflexivity |].
  split; [vm_compute; reflexivity |]. split; [vm_compute; reflexivity |].
  exact (proj2 (history_reply _ "EQ-Buyer_01")).
Defined.



End MoreExamples.
